(** * Interactive Location Builder: the location collection pipeline

    A shallow embedding of the collection logic of [App.tsx] (and of its
    remote-artifact variant): the schema validator [validateLocationsData],
    the startup load from [localStorage], and the handlers that insert,
    update, delete, reorder, import and clear the list of locations, each
    of which mirrors the list to [localStorage].

    JavaScript values of type [any] are the inductive [JSValue]; the
    interfaces of [types.ts] are records; React state is one record,
    [AppState], threaded through the handlers; [localStorage] is a finite
    map from keys to strings.  The platform's [JSON.parse] and
    [JSON.stringify] are taken as an interface ([JSONBuiltin]): the
    handlers are written against it, and a small concrete codec
    ([RefJSON]) instantiates it for examples. *)

From Stdlib Require Import ZArith QArith List Ascii String Bool Lia.
From stdpp Require Import base option list gmap strings.

Import ListNotations.
Local Open Scope string_scope.
Local Open Scope nat_scope.
Local Open Scope list_scope.
Set Warnings "-register-all".

(** ** JavaScript values *)

(** A Number: a finite value, denoted by the rational it equals, in lowest
    terms (so the two zeros are one value, as under [===]), or one of the
    three values that are not finite. *)
Inductive JSNumber : Type :=
| Finite (q : Q)
| NaN
| PosInfinity
| NegInfinity.

Definition isFinite (n : JSNumber) : bool :=
  match n with
  | Finite _ => true
  | _ => false
  end.

(** A value as [JSON.parse] builds it, or as a handler builds it from
    object and array literals.  [JUndefined] is what reading an absent
    property gives.  An object is the list of its own properties, in the
    order in which the engine enumerates them, each name once. *)
Inductive JSValue : Type :=
| JUndefined
| JNull
| JBool (b : bool)
| JNum (n : JSNumber)
| JStr (s : string)
| JArr (items : list JSValue)
| JObj (props : list (string * JSValue)).

(** [typeof v] *)
Definition typeof (v : JSValue) : string :=
  match v with
  | JUndefined => "undefined"
  | JNull => "object"
  | JBool _ => "boolean"
  | JNum _ => "number"
  | JStr _ => "string"
  | JArr _ => "object"
  | JObj _ => "object"
  end.

(** [ToBoolean v]: what [v && ...] tests. *)
Definition truthy (v : JSValue) : bool :=
  match v with
  | JUndefined => false
  | JNull => false
  | JBool b => b
  | JNum (Finite q) => negb (Qeq_bool q 0)
  | JNum NaN => false
  | JNum _ => true
  | JStr s => negb (String.eqb s "")
  | JArr _ => true
  | JObj _ => true
  end.

(** [Array.isArray v] *)
Definition isArray (v : JSValue) : bool :=
  match v with
  | JArr _ => true
  | _ => false
  end.

Fixpoint lookup_prop (k : string) (props : list (string * JSValue)) : JSValue :=
  match props with
  | [] => JUndefined
  | (k', v) :: rest => if String.eqb k k' then v else lookup_prop k rest
  end.

(** [v.k] for the property names the validator reads ([id], [title], ...,
    none of which a primitive, an array or [Object.prototype] defines): the
    own property of an object, [undefined] on anything else.  The validator
    reads a property only of a truthy value, so the read never throws. *)
Definition get (v : JSValue) (k : string) : JSValue :=
  match v with
  | JObj props => lookup_prop k props
  | _ => JUndefined
  end.

(** [o[k] = v] on the property list: a name that is already there keeps
    its place and takes the new value, a new name goes last. *)
Fixpoint set_prop (k : string) (v : JSValue) (props : list (string * JSValue))
    : list (string * JSValue) :=
  match props with
  | [] => [(k, v)]
  | (k', v') :: rest =>
      if String.eqb k k' then (k', v) :: rest else (k', v') :: set_prop k v rest
  end.

(** The object [o] after [o[k] = v]. *)
Definition assign (k : string) (v : JSValue) (o : JSValue) : JSValue :=
  match o with
  | JObj props => JObj (set_prop k v props)
  | _ => o
  end.

(** The elements of an array (used after [Array.isArray] has passed). *)
Definition elements (v : JSValue) : list JSValue :=
  match v with
  | JArr items => items
  | _ => []
  end.

(** [v[i]] on an array: [undefined] past the end. *)
Definition index (v : JSValue) (i : nat) : JSValue :=
  nth i (elements v) JUndefined.

(** [[lit1, lit2, ...].includes(v)] for an array of string literals:
    SameValueZero finds only a string equal to one of them. *)
Definition includes (literals : list string) (v : JSValue) : bool :=
  match v with
  | JStr s => existsb (String.eqb s) literals
  | _ => false
  end.

Definition is_undefined (v : JSValue) : bool :=
  match v with
  | JUndefined => true
  | _ => false
  end.

Definition is_null (v : JSValue) : bool :=
  match v with
  | JNull => true
  | _ => false
  end.

(** ** The interfaces of [types.ts] *)

Inductive QuestionType : Type :=
| short_answer
| true_false
| multiple_choice.

Module Question.
Record t : Type := mk {
  id : string;
  text : string;
  type : QuestionType;
  options : option (list string);
  answer : string
}.
End Question.

Definition LatLngTuple : Type := (JSNumber * JSNumber)%type.

Module Location.
Record t : Type := mk {
  id : string;
  title : string;
  country : string;
  description : string;
  image : string;
  video : option string;
  audio : option string;
  coordinates : LatLngTuple;
  questions : option (list Question.t);
  block_navigation : option bool
}.
End Location.

(** ** The schema validator *)

(** The callback of [loc.questions.every(...)]. *)
Definition isQuestion (q : JSValue) : bool :=
  truthy q &&
  String.eqb (typeof (get q "id")) "string" &&
  String.eqb (typeof (get q "text")) "string" &&
  includes ["short_answer"; "true_false"; "multiple_choice"] (get q "type") &&
  String.eqb (typeof (get q "answer")) "string" &&
  (is_undefined (get q "options") ||
   (isArray (get q "options") &&
    forallb (fun opt => String.eqb (typeof opt) "string") (elements (get q "options")))).

(** The type guard [(loc: any): loc is Location] passed to [data.filter]. *)
Definition isLocation (loc : JSValue) : bool :=
  truthy loc &&
  String.eqb (typeof (get loc "id")) "string" &&
  String.eqb (typeof (get loc "title")) "string" &&
  String.eqb (typeof (get loc "country")) "string" &&
  String.eqb (typeof (get loc "description")) "string" &&
  String.eqb (typeof (get loc "image")) "string" &&
  (is_null (get loc "video") || String.eqb (typeof (get loc "video")) "string") &&
  (is_null (get loc "audio") || String.eqb (typeof (get loc "audio")) "string") &&
  isArray (get loc "coordinates") &&
  (length (elements (get loc "coordinates")) =? 2) &&
  String.eqb (typeof (index (get loc "coordinates") 0)) "number" &&
  String.eqb (typeof (index (get loc "coordinates") 1)) "number" &&
  (is_undefined (get loc "questions") ||
   (isArray (get loc "questions") &&
    forallb isQuestion (elements (get loc "questions")))) &&
  (is_undefined (get loc "block_navigation") ||
   String.eqb (typeof (get loc "block_navigation")) "boolean").

(** *** The typed view of a value the guard has accepted

    TypeScript narrows an accepted value to [Location] without touching
    it; here the narrowing reads the fields of the interface into the
    record.  Properties outside the interface are not part of the view. *)

Definition as_string (v : JSValue) : string :=
  match v with
  | JStr s => s
  | _ => ""
  end.

Definition as_nullable_string (v : JSValue) : option string :=
  match v with
  | JStr s => Some s
  | _ => None
  end.

Definition as_number (v : JSValue) : JSNumber :=
  match v with
  | JNum n => n
  | _ => NaN
  end.

Definition as_optional_boolean (v : JSValue) : option bool :=
  match v with
  | JBool b => Some b
  | _ => None
  end.

Definition as_QuestionType (v : JSValue) : QuestionType :=
  match v with
  | JStr s =>
      if String.eqb s "true_false" then true_false
      else if String.eqb s "multiple_choice" then multiple_choice
      else short_answer
  | _ => short_answer
  end.

Definition asQuestion (q : JSValue) : Question.t :=
  {| Question.id := as_string (get q "id");
     Question.text := as_string (get q "text");
     Question.type := as_QuestionType (get q "type");
     Question.options :=
       match get q "options" with
       | JArr opts => Some (map as_string opts)
       | _ => None
       end;
     Question.answer := as_string (get q "answer") |}.

Definition asLocation (loc : JSValue) : Location.t :=
  {| Location.id := as_string (get loc "id");
     Location.title := as_string (get loc "title");
     Location.country := as_string (get loc "country");
     Location.description := as_string (get loc "description");
     Location.image := as_string (get loc "image");
     Location.video := as_nullable_string (get loc "video");
     Location.audio := as_nullable_string (get loc "audio");
     Location.coordinates :=
       (as_number (index (get loc "coordinates") 0),
        as_number (index (get loc "coordinates") 1));
     Location.questions :=
       match get loc "questions" with
       | JArr qs => Some (map asQuestion qs)
       | _ => None
       end;
     Location.block_navigation := as_optional_boolean (get loc "block_navigation") |}.

(** [validateLocationsData(data: any): Location[] | null] *)
Definition validateLocationsData (data : JSValue) : option (list Location.t) :=
  if negb (isArray data) then None
  else
    let validLocations := List.filter isLocation (elements data) in
    (* all items of the original array were valid: compare lengths *)
    if negb (length validLocations =? length (elements data)) then None
    else Some (map asLocation validLocations).

(** ** Records as run-time objects

    The object a record of the interface stands for.  The model keeps the
    fields of the interface: the properties come in the order of the
    object literal of [handleSaveLocation], and properties outside the
    interface, which an imported object may carry, are not represented. *)

Definition QuestionType_tag (t : QuestionType) : string :=
  match t with
  | short_answer => "short_answer"
  | true_false => "true_false"
  | multiple_choice => "multiple_choice"
  end.

Definition nullable_string_to_js (o : option string) : JSValue :=
  match o with
  | Some s => JStr s
  | None => JNull
  end.

(** An optional property ([options?], [questions?], [block_navigation?])
    that is absent is no property of the object. *)
Definition optional_prop (k : string) (o : option JSValue) : list (string * JSValue) :=
  match o with
  | Some v => [(k, v)]
  | None => []
  end.

Definition Question_to_js (q : Question.t) : JSValue :=
  JObj ([("id", JStr (Question.id q));
         ("text", JStr (Question.text q));
         ("type", JStr (QuestionType_tag (Question.type q)))]
        ++ optional_prop "options"
             (option_map (fun opts => JArr (map JStr opts)) (Question.options q))
        ++ [("answer", JStr (Question.answer q))]).

Definition Location_to_js (loc : Location.t) : JSValue :=
  JObj ([("id", JStr (Location.id loc));
         ("title", JStr (Location.title loc));
         ("country", JStr (Location.country loc));
         ("description", JStr (Location.description loc));
         ("image", JStr (Location.image loc));
         ("video", nullable_string_to_js (Location.video loc));
         ("audio", nullable_string_to_js (Location.audio loc));
         ("coordinates",
          JArr [JNum (fst (Location.coordinates loc));
                JNum (snd (Location.coordinates loc))])]
        ++ optional_prop "questions"
             (option_map (fun qs => JArr (map Question_to_js qs)) (Location.questions loc))
        ++ optional_prop "block_navigation"
             (option_map JBool (Location.block_navigation loc))).

Definition Locations_to_js (locations : list Location.t) : JSValue :=
  JArr (map Location_to_js locations).

(** ** The platform's JSON object

    [JSON_parse s] is [None] when [JSON.parse(s)] throws a SyntaxError.
    [JSON_stringify] is applied to arrays only, for which [JSON.stringify]
    always returns a string. *)
Class JSONBuiltin : Type := {
  JSON_parse : string -> option JSValue;
  JSON_stringify : JSValue -> string
}.

(** What [JSON.parse(JSON.stringify(v))] is, by the rules of
    SerializeJSONProperty: a number that is not finite is written [null];
    [undefined] is written [null] as an array element and makes an object
    drop the property. *)
Fixpoint JSON_image (v : JSValue) : JSValue :=
  match v with
  | JUndefined => JNull
  | JNull => JNull
  | JBool b => JBool b
  | JNum n => if isFinite n then JNum n else JNull
  | JStr s => JStr s
  | JArr items => JArr (map JSON_image items)
  | JObj props =>
      JObj ((fix members (ps : list (string * JSValue)) : list (string * JSValue) :=
               match ps with
               | [] => []
               | (k, JUndefined) :: rest => members rest
               | (k, x) :: rest => (k, JSON_image x) :: members rest
               end) props)
  end.

(** The contract of the platform at one value: stringifying it and parsing
    the text back gives its JSON image. *)
Definition JSON_roundtrips `{JSONBuiltin} (v : JSValue) : Prop :=
  JSON_parse (JSON_stringify v) = Some (JSON_image v).

(** ** Application state *)

(** The argument of [handleSaveLocation]. *)
Module FormData.
Record t : Type := mk {
  title : string;
  description : string;
  image : string;
  video : string;
  audio : string;
  questions : list Question.t;
  block_navigation : bool
}.
End FormData.

(** The [useState] cells of [App] that the collection logic reads or
    writes, and [localStorage]. *)
Record AppState : Type := mkAppState {
  locations : list Location.t;
  selectedCoords : option LatLngTuple;
  selectedCountry : option string;
  editingLocation : option Location.t;
  localStorage : gmap string string
}.

Definition setLocations (v : list Location.t) (st : AppState) : AppState :=
  {| locations := v;
     selectedCoords := selectedCoords st;
     selectedCountry := selectedCountry st;
     editingLocation := editingLocation st;
     localStorage := localStorage st |}.

Definition setSelectedCoords (v : option LatLngTuple) (st : AppState) : AppState :=
  {| locations := locations st;
     selectedCoords := v;
     selectedCountry := selectedCountry st;
     editingLocation := editingLocation st;
     localStorage := localStorage st |}.

Definition setSelectedCountry (v : option string) (st : AppState) : AppState :=
  {| locations := locations st;
     selectedCoords := selectedCoords st;
     selectedCountry := v;
     editingLocation := editingLocation st;
     localStorage := localStorage st |}.

Definition setEditingLocation (v : option Location.t) (st : AppState) : AppState :=
  {| locations := locations st;
     selectedCoords := selectedCoords st;
     selectedCountry := selectedCountry st;
     editingLocation := v;
     localStorage := localStorage st |}.

(** [localStorage.getItem], [setItem] and [removeItem]. *)
Definition getItem (key : string) (st : AppState) : option string :=
  localStorage st !! key.

Definition setItem (key value : string) (st : AppState) : AppState :=
  {| locations := locations st;
     selectedCoords := selectedCoords st;
     selectedCountry := selectedCountry st;
     editingLocation := editingLocation st;
     localStorage := <[key := value]> (localStorage st) |}.

Definition removeItem (key : string) (st : AppState) : AppState :=
  {| locations := locations st;
     selectedCoords := selectedCoords st;
     selectedCountry := selectedCountry st;
     editingLocation := editingLocation st;
     localStorage := delete key (localStorage st) |}.

(** The state [App] mounts with, over whatever the browser has stored. *)
Definition initialState (stored : gmap string string) : AppState :=
  {| locations := [];
     selectedCoords := None;
     selectedCountry := None;
     editingLocation := None;
     localStorage := stored |}.

(** ** [Array.prototype.splice] *)

(** The start position [splice] computes from its first argument: a
    negative argument counts from the end, and the result is clamped to
    [0 .. len]. *)
Definition splice_start (start : Z) (len : nat) : nat :=
  if (start <? 0)%Z then Z.to_nat (Z.max (Z.of_nat len + start) 0)
  else Z.to_nat (Z.min start (Z.of_nat len)).

(** [arr.splice(start, deleteCount, ...newItems)] with integer arguments:
    the removed elements, and the array afterwards. *)
Definition splice {T : Type} (start deleteCount : Z) (newItems : list T)
    (arr : list T) : list T * list T :=
  let len := length arr in
  let actualStart := splice_start start len in
  let actualDeleteCount :=
    Z.to_nat (Z.min (Z.max deleteCount 0) (Z.of_nat (len - actualStart))) in
  (take actualDeleteCount (drop actualStart arr),
   take actualStart arr ++ newItems ++ drop (actualStart + actualDeleteCount) arr).

(** ** The handlers of [App] *)

Section Handlers.
Context `{JSON : JSONBuiltin}.

(** [updateStoredLocations] *)
Definition updateStoredLocations (updatedLocations : list Location.t)
    (st : AppState) : AppState :=
  setItem "locations" (JSON_stringify (Locations_to_js updatedLocations)) st.

(** The mount effect of [App.tsx] that loads the stored list.  A stored
    string that is empty is falsy and is not parsed; a SyntaxError from
    [JSON.parse] lands in the [catch], which only logs. *)
Definition loadStoredLocations (st : AppState) : AppState :=
  match getItem "locations" st with
  | Some storedLocations =>
      if negb (String.eqb storedLocations "") then
        match JSON_parse storedLocations with
        | Some parsedData =>
            match validateLocationsData parsedData with
            | Some validatedLocations => setLocations validatedLocations st
            | None =>
                (* 'Invalid location data in localStorage, clearing it.' *)
                removeItem "locations" st
            end
        | None => st
        end
      else st
  | None => st
  end.

(** The mount effect of the remote-artifact variant of [App].
    [artifact_data] is the string the artifact endpoint answered with, or
    [None] when the launch parameters are incomplete, the request failed,
    or the answer carries no such field.  Whenever the remote list is not
    taken, the effect falls back to the stored one. *)
Definition fetchArtifactData (artifact_data : option string) (st : AppState) : AppState :=
  let fromApi :=
    match artifact_data with
    | Some text =>
        match JSON_parse text with
        | Some parsedData => validateLocationsData parsedData
        | None => None
        end
    | None => None
    end in
  match fromApi with
  | Some validatedLocations =>
      updateStoredLocations validatedLocations (setLocations validatedLocations st)
  | None => loadStoredLocations st
  end.

(** [insert] *)
Definition insert (newLocation : Location.t) (st : AppState) : AppState :=
  let prevLocations := locations st in
  let updatedLocations := prevLocations ++ [newLocation] in
  setLocations updatedLocations (updateStoredLocations updatedLocations st).

(** [formData.video || null] *)
Definition or_null (s : string) : option string :=
  if String.eqb s "" then None else Some s.

(** [handleCancelEdit] *)
Definition handleCancelEdit (st : AppState) : AppState :=
  setSelectedCountry None (setSelectedCoords None (setEditingLocation None st)).

(** [handleStartEdit] (the cells of the map view are not modelled). *)
Definition handleStartEdit (location : Location.t) (st : AppState) : AppState :=
  setSelectedCountry (Some (Location.country location))
    (setSelectedCoords (Some (Location.coordinates location))
       (setEditingLocation (Some location) st)).

(** [handleMapClick], with the outcome of the reverse-geocoding request:
    [Some country] when the answer names a country, [None] when it names
    none or the request failed. *)
Definition handleMapClick (coords : LatLngTuple) (response : option string)
    (st : AppState) : AppState :=
  let st := setSelectedCountry None (setSelectedCoords (Some coords) st) in
  let deselect st := (* Deselect only if not editing *)
    match editingLocation st with
    | Some _ => st
    | None => setSelectedCoords None st
    end in
  match response with
  | Some country =>
      if negb (String.eqb country "") then setSelectedCountry (Some country) st
      else deselect st
  | None => deselect st
  end.

(** The record the update branch of [handleSaveLocation] builds:
    [{...editingLocation, title: formData.title, ...}]. *)
Definition updatedLocation (editing : Location.t) (formData : FormData.t)
    (coords : LatLngTuple) (country : string) : Location.t :=
  {| Location.id := Location.id editing;
     Location.title := FormData.title formData;
     Location.description := FormData.description formData;
     Location.image := FormData.image formData;
     Location.video := or_null (FormData.video formData);
     Location.audio := or_null (FormData.audio formData);
     Location.coordinates := coords;
     Location.country := country;
     Location.questions := Some (FormData.questions formData);
     Location.block_navigation := Some (FormData.block_navigation formData) |}.

(** The record the create branch builds; [now] is
    [new Date().toISOString()]. *)
Definition newLocation (now : string) (formData : FormData.t)
    (coords : LatLngTuple) (country : string) : Location.t :=
  {| Location.id := now;
     Location.title := FormData.title formData;
     Location.country := country;
     Location.description := FormData.description formData;
     Location.image := FormData.image formData;
     Location.video := or_null (FormData.video formData);
     Location.audio := or_null (FormData.audio formData);
     Location.coordinates := coords;
     Location.questions := Some (FormData.questions formData);
     Location.block_navigation := Some (FormData.block_navigation formData) |}.

(** The guard of [handleSaveLocation]: [selectedCoords] and a non-empty
    [selectedCountry]. *)
Definition selection (st : AppState) : option (LatLngTuple * string) :=
  match selectedCoords st, selectedCountry st with
  | Some coords, Some country =>
      if String.eqb country "" then None else Some (coords, country)
  | _, _ => None
  end.

(** [handleSaveLocation] *)
Definition handleSaveLocation (now : string) (formData : FormData.t)
    (st : AppState) : AppState :=
  match selection st with
  | None => st (* alert(t('formAlert')); return *)
  | Some (coords, country) =>
      let st :=
        match editingLocation st with
        | Some editing =>
            (* Update *)
            let updatedLocation := updatedLocation editing formData coords country in
            let prev := locations st in
            let updated :=
              map (fun loc =>
                     if String.eqb (Location.id loc) (Location.id editing)
                     then updatedLocation else loc) prev in
            setLocations updated (updateStoredLocations updated st)
        | None =>
            (* Create *)
            insert (newLocation now formData coords country) st
        end in
      setEditingLocation None (setSelectedCountry None (setSelectedCoords None st))
  end.

(** [handleDeleteLocation] *)
Definition handleDeleteLocation (id : string) (st : AppState) : AppState :=
  let st :=
    match editingLocation st with
    | Some editing =>
        if String.eqb (Location.id editing) id then handleCancelEdit st else st
    | None => st
    end in
  let prevLocations := locations st in
  let updatedLocations :=
    List.filter (fun loc => negb (String.eqb (Location.id loc) id)) prevLocations in
  setLocations updatedLocations (updateStoredLocations updatedLocations st).

(** [handleReorderLocations].  When [oldIndex] is at or past the end the
    first [splice] removes nothing and [reorderedItem] is [undefined]; the
    source then splices [undefined] into the list, which leaves the type
    [Location[]]: that outcome is [None]. *)
Definition handleReorderLocations (oldIndex newIndex : Z) (st : AppState) : option AppState :=
  let prevLocations := locations st in
  let '(removed, items) := splice oldIndex 1 [] prevLocations in
  match removed with
  | reorderedItem :: _ =>
      let '(_, items) := splice newIndex 0 [reorderedItem] items in
      Some (setLocations items (updateStoredLocations items st))
  | [] => None
  end.

(** [handleImport], from the point where the file has been read as
    [text]; [confirmed] is the answer to [window.confirm]. *)
Definition handleImport (text : string) (confirmed : bool) (st : AppState) : AppState :=
  if negb confirmed then st
  else
    match JSON_parse text with
    | Some jsonData =>
        match validateLocationsData jsonData with
        | Some validatedLocations =>
            updateStoredLocations validatedLocations (setLocations validatedLocations st)
        | None => st (* alert(t('importError_validation')) *)
        end
    | None => st (* alert(t('importError_json')) *)
    end.

(** [handleClearAllLocations] *)
Definition handleClearAllLocations (confirmed : bool) (st : AppState) : AppState :=
  if confirmed then updateStoredLocations [] (setLocations [] st) else st.

(** [handleDragEnd] of [LocationsList]: the dragged and the target item
    are looked up by id in the full list ([findIndex] gives [-1] for an id
    that is not there). *)
Definition findIndex (id : string) (locations : list Location.t) : Z :=
  match list_find (fun loc => Location.id loc = id) locations with
  | Some (i, _) => Z.of_nat i
  | None => (-1)%Z
  end.

Definition handleDragEnd (active : string) (over : option string) (st : AppState) : option AppState :=
  match over with
  | Some over =>
      if negb (String.eqb active over) then
        handleReorderLocations (findIndex active (locations st))
          (findIndex over (locations st)) st
      else Some st
  | None => Some st
  end.

(** ** Events and runs *)

Inductive Action : Type :=
| Insert (newLocation : Location.t)
| SaveLocation (now : string) (formData : FormData.t)
| DeleteLocation (id : string)
| ReorderLocations (oldIndex newIndex : Z)
| Import (text : string) (confirmed : bool)
| ClearAllLocations (confirmed : bool)
| StartEdit (location : Location.t)
| CancelEdit
| MapClick (coords : LatLngTuple) (response : option string).

Definition step (st : AppState) (a : Action) : option AppState :=
  match a with
  | Insert newLocation => Some (insert newLocation st)
  | SaveLocation now formData => Some (handleSaveLocation now formData st)
  | DeleteLocation id => Some (handleDeleteLocation id st)
  | ReorderLocations oldIndex newIndex => handleReorderLocations oldIndex newIndex st
  | Import text confirmed => Some (handleImport text confirmed st)
  | ClearAllLocations confirmed => Some (handleClearAllLocations confirmed st)
  | StartEdit location => Some (handleStartEdit location st)
  | CancelEdit => Some (handleCancelEdit st)
  | MapClick coords response => Some (handleMapClick coords response st)
  end.

Fixpoint run (st : AppState) (actions : list Action) : option AppState :=
  match actions with
  | [] => Some st
  | a :: rest =>
      match step st a with
      | Some st' => run st' rest
      | None => None
      end
  end.

End Handlers.

(** ** A reference JSON codec

    A printer and a recursive-descent parser for JSON texts over byte
    strings, used to instantiate [JSONBuiltin] in the examples.  Numbers
    are printed in plain decimal notation; the parser reads the full JSON
    number grammar and overflows to an infinity as the platform does. *)
Module RefJSON.

Definition quote : ascii := "034"%char.
Definition backslash : ascii := "092"%char.

Definition digit_char (d : Z) : ascii := ascii_of_nat (48 + Z.to_nat d).

Fixpoint print_digits (fuel : nat) (n : Z) (acc : string) : string :=
  match fuel with
  | 0 => acc
  | S fuel =>
      let acc := String (digit_char (n mod 10)) acc in
      if (n <? 10)%Z then acc else print_digits fuel (n / 10) acc
  end.

Definition print_natural (n : Z) : string :=
  print_digits (S (Z.to_nat (Z.log2 n))) n "".

(** The digits of [r / d] after the decimal point, for [0 <= r < d]. *)
Fixpoint print_fraction (fuel : nat) (r d : Z) : string :=
  match fuel with
  | 0 => ""
  | S fuel =>
      if (r =? 0)%Z then ""
      else String (digit_char (r * 10 / d)) (print_fraction fuel (r * 10 mod d) d)
  end.

Definition print_number (q : Q) : string :=
  let n := Qnum q in
  let d := Z.pos (Qden q) in
  let a := Z.abs n in
  (if (n <? 0)%Z then "-" else "")
  +:+ print_natural (a / d)
  +:+ (if (a mod d =? 0)%Z then "" else "." +:+ print_fraction 1100 (a mod d) d).

Definition hex_char (n : nat) : ascii :=
  if n <? 10 then ascii_of_nat (48 + n) else ascii_of_nat (87 + n).

Fixpoint escape (s : string) : string :=
  match s with
  | EmptyString => ""
  | String c rest =>
      let n := nat_of_ascii c in
      (if Ascii.eqb c quote then String backslash (String quote "")
       else if Ascii.eqb c backslash then String backslash (String backslash "")
       else if n <? 32 then
         String backslash ("u00" +:+ String (hex_char (n / 16)) (String (hex_char (n mod 16)) ""))
       else String c "")
      +:+ escape rest
  end.

Definition print_string (s : string) : string :=
  String quote (escape s +:+ String quote "").

Fixpoint print_value (v : JSValue) : string :=
  match v with
  | JUndefined => "null"
  | JNull => "null"
  | JBool true => "true"
  | JBool false => "false"
  | JNum (Finite q) => print_number q
  | JNum _ => "null"
  | JStr s => print_string s
  | JArr items =>
      "["
      +:+ (fix elems (first : bool) (l : list JSValue) : string :=
             match l with
             | [] => ""
             | x :: rest =>
                 (if first then "" else ",") +:+ print_value x +:+ elems false rest
             end) true items
      +:+ "]"
  | JObj props =>
      "{"
      +:+ (fix members (first : bool) (ps : list (string * JSValue)) : string :=
             match ps with
             | [] => ""
             | (k, JUndefined) :: rest => members first rest
             | (k, x) :: rest =>
                 (if first then "" else ",")
                 +:+ print_string k +:+ ":" +:+ print_value x +:+ members false rest
             end) true props
      +:+ "}"
  end.

Definition is_ws (c : ascii) : bool :=
  let n := nat_of_ascii c in
  (n =? 32) || (n =? 9) || (n =? 10) || (n =? 13).

Fixpoint skip_ws (s : string) : string :=
  match s with
  | String c rest => if is_ws c then skip_ws rest else s
  | EmptyString => s
  end.

Definition is_digit (c : ascii) : bool :=
  let n := nat_of_ascii c in (48 <=? n) && (n <=? 57).

Definition digit_value (c : ascii) : Z := Z.of_nat (nat_of_ascii c - 48).

(** The leading digits of [s]: their value after [acc], their number, and
    what follows them. *)
Fixpoint read_digits (s : string) (acc : Z) (count : nat) : Z * nat * string :=
  match s with
  | String c rest =>
      if is_digit c then read_digits rest (acc * 10 + digit_value c)%Z (S count)
      else (acc, count, s)
  | EmptyString => (acc, count, s)
  end.

(** The largest finite double is [2^1024 - 2^971]; a decimal at or above
    [2^1024 - 2^970] rounds to an infinity. *)
Definition overflow_threshold : Z := (2 ^ 1024 - 2 ^ 970)%Z.

Definition number_of_decimal (negative : bool) (mantissa : Z) (scale : Z) : JSNumber :=
  let q :=
    if (0 <=? scale)%Z then (mantissa * 10 ^ scale) # 1
    else Qred (mantissa # Z.to_pos (10 ^ (- scale))) in
  if Qle_bool (overflow_threshold # 1) q then
    if negative then NegInfinity else PosInfinity
  else Finite (if negative then Qred (- q) else q).

Definition parse_exponent (s : string) : option (Z * string) :=
  match s with
  | String c rest =>
      if Ascii.eqb c "e" || Ascii.eqb c "E" then
        let '(negative, rest) :=
          match rest with
          | String "-" r => (true, r)
          | String "+" r => (false, r)
          | _ => (false, rest)
          end in
        let '(e, count, rest) := read_digits rest 0 0 in
        if count =? 0 then None
        else Some (if negative then (- e)%Z else e, rest)
      else Some (0%Z, s)
  | EmptyString => Some (0%Z, s)
  end.

Definition parse_number (s : string) : option (JSNumber * string) :=
  let '(negative, s) :=
    match s with
    | String "-" r => (true, r)
    | _ => (false, s)
    end in
  let '(int, count, rest) := read_digits s 0 0 in
  let leading_zero :=
    match s with
    | String "0" _ => 1 <? count
    | _ => false
    end in
  if (count =? 0) || leading_zero then None
  else
    let fraction :=
      match rest with
      | String "." r =>
          let '(m, fcount, rest') := read_digits r int 0 in
          if fcount =? 0 then None else Some (m, fcount, rest')
      | _ => Some (int, 0, rest)
      end in
    match fraction with
    | None => None
    | Some (mantissa, fcount, rest) =>
        match parse_exponent rest with
        | None => None
        | Some (e, rest) =>
            Some (number_of_decimal negative mantissa (e - Z.of_nat fcount), rest)
        end
    end.

Definition hex_value (c : ascii) : option nat :=
  let n := nat_of_ascii c in
  if (48 <=? n) && (n <=? 57) then Some (n - 48)
  else if (97 <=? n) && (n <=? 102) then Some (n - 87)
  else if (65 <=? n) && (n <=? 70) then Some (n - 55)
  else None.

(** The UTF-8 bytes of a code unit below [2^16]. *)
Definition utf8 (n : nat) : string :=
  if n <? 128 then String (ascii_of_nat n) ""
  else if n <? 2048 then
    String (ascii_of_nat (192 + n / 64)) (String (ascii_of_nat (128 + n mod 64)) "")
  else
    String (ascii_of_nat (224 + n / 4096))
      (String (ascii_of_nat (128 + n / 64 mod 64))
         (String (ascii_of_nat (128 + n mod 64)) "")).

Definition simple_escape (c : ascii) : option ascii :=
  if Ascii.eqb c quote then Some quote
  else if Ascii.eqb c backslash then Some backslash
  else if Ascii.eqb c "/" then Some "/"%char
  else if Ascii.eqb c "b" then Some "008"%char
  else if Ascii.eqb c "f" then Some "012"%char
  else if Ascii.eqb c "n" then Some "010"%char
  else if Ascii.eqb c "r" then Some "013"%char
  else if Ascii.eqb c "t" then Some "009"%char
  else None.

Definition prepend (prefix : string) (r : option (string * string)) : option (string * string) :=
  match r with
  | Some (s, rest) => Some (prefix +:+ s, rest)
  | None => None
  end.

(** The characters of a string literal after its opening quote. *)
Fixpoint parse_chars (s : string) : option (string * string) :=
  match s with
  | EmptyString => None
  | String c rest =>
      if Ascii.eqb c quote then Some ("", rest)
      else if Ascii.eqb c backslash then
        match rest with
        | String e rest' =>
            match simple_escape e with
            | Some ch => prepend (String ch "") (parse_chars rest')
            | None =>
                if Ascii.eqb e "u" then
                  match rest' with
                  | String h1 (String h2 (String h3 (String h4 rest''))) =>
                      match hex_value h1, hex_value h2, hex_value h3, hex_value h4 with
                      | Some a, Some b, Some c, Some d =>
                          prepend (utf8 (((a * 16 + b) * 16 + c) * 16 + d))
                            (parse_chars rest'')
                      | _, _, _, _ => None
                      end
                  | _ => None
                  end
                else None
            end
        | EmptyString => None
        end
      else if nat_of_ascii c <? 32 then None
      else prepend (String c "") (parse_chars rest)
  end.

Definition literal (word : string) (v : JSValue) (s : string) : option (JSValue * string) :=
  if String.prefix word s
  then Some (v, String.substring (String.length word) (String.length s - String.length word) s)
  else None.

Fixpoint parse_value (fuel : nat) (s : string) : option (JSValue * string) :=
  match fuel with
  | 0 => None
  | S fuel =>
      match skip_ws s with
      | EmptyString => None
      | String c rest =>
          if Ascii.eqb c "[" then
            match skip_ws rest with
            | String "]" rest' => Some (JArr [], rest')
            | _ =>
                match parse_elements fuel rest with
                | Some (items, rest') => Some (JArr items, rest')
                | None => None
                end
            end
          else if Ascii.eqb c "{" then
            match skip_ws rest with
            | String "}" rest' => Some (JObj [], rest')
            | _ =>
                match parse_members fuel rest [] with
                | Some (props, rest') => Some (JObj props, rest')
                | None => None
                end
            end
          else if Ascii.eqb c quote then
            match parse_chars rest with
            | Some (str, rest') => Some (JStr str, rest')
            | None => None
            end
          else if Ascii.eqb c "t" then literal "true" (JBool true) (String c rest)
          else if Ascii.eqb c "f" then literal "false" (JBool false) (String c rest)
          else if Ascii.eqb c "n" then literal "null" JNull (String c rest)
          else
            match parse_number (String c rest) with
            | Some (n, rest') => Some (JNum n, rest')
            | None => None
            end
      end
  end
with parse_elements (fuel : nat) (s : string) : option (list JSValue * string) :=
  match fuel with
  | 0 => None
  | S fuel =>
      match parse_value fuel s with
      | Some (v, rest) =>
          match skip_ws rest with
          | String "," rest' =>
              match parse_elements fuel rest' with
              | Some (vs, rest'') => Some (v :: vs, rest'')
              | None => None
              end
          | String "]" rest' => Some ([v], rest')
          | _ => None
          end
      | None => None
      end
  end
with parse_members (fuel : nat) (s : string) (acc : list (string * JSValue))
    : option (list (string * JSValue) * string) :=
  match fuel with
  | 0 => None
  | S fuel =>
      match skip_ws s with
      | String c rest =>
          if Ascii.eqb c quote then
            match parse_chars rest with
            | Some (k, rest) =>
                match skip_ws rest with
                | String ":" rest =>
                    match parse_value fuel rest with
                    | Some (v, rest) =>
                        let acc := set_prop k v acc in
                        match skip_ws rest with
                        | String "," rest => parse_members fuel rest acc
                        | String "}" rest => Some (acc, rest)
                        | _ => None
                        end
                    | None => None
                    end
                | _ => None
                end
            | None => None
            end
          else None
      | EmptyString => None
      end
  end.

Definition parse (s : string) : option JSValue :=
  match parse_value (2 * String.length s + 2) s with
  | Some (v, rest) =>
      match skip_ws rest with
      | EmptyString => Some v
      | _ => None
      end
  | None => None
  end.

End RefJSON.

Definition RefJSON_builtin : JSONBuiltin :=
  {| JSON_parse := RefJSON.parse; JSON_stringify := RefJSON.print_value |}.

(** ** Launch parameters ([utils/urlParams.ts]) *)

Module URLParams.
Record t : Type := mk {
  userId : option string;
  token : option string;
  artifactId : option string;
  baseUrl : option string
}.
End URLParams.

(** [params.get(name)] of a [URLSearchParams], given as its decoded
    name-value pairs in order: the first value under the name, or [null]. *)
Fixpoint searchParams_get (name : string) (params : list (string * string)) : option string :=
  match params with
  | [] => None
  | (k, v) :: rest => if String.eqb k name then Some v else searchParams_get name rest
  end.

(** [s.endsWith('/')] *)
Fixpoint endsWith_slash (s : string) : bool :=
  match s with
  | EmptyString => false
  | String c EmptyString => Ascii.eqb c "/"
  | String _ rest => endsWith_slash rest
  end.

(** [s.slice(0, -1)]: [s] without its last code unit (applied to a
    string that ends with a slash, where that unit is one byte). *)
Fixpoint slice_0_minus_1 (s : string) : string :=
  match s with
  | EmptyString => ""
  | String _ EmptyString => ""
  | String c rest => String c (slice_0_minus_1 rest)
  end.

(** A value of type [string | null] in a boolean position. *)
Definition truthy_string (v : option string) : bool :=
  match v with
  | Some s => negb (String.eqb s "")
  | None => false
  end.

(** [getURLParams], from the pairs of [window.location.search]. *)
Definition getURLParams (params : list (string * string)) : URLParams.t :=
  let baseUrl := searchParams_get "base_url" params in
  (* Remove trailing slash if present *)
  let baseUrl :=
    match baseUrl with
    | Some b => if truthy_string baseUrl && endsWith_slash b
                then Some (slice_0_minus_1 b) else baseUrl
    | None => baseUrl
    end in
  {| URLParams.userId := searchParams_get "userId" params;
     URLParams.token := searchParams_get "token" params;
     URLParams.artifactId := searchParams_get "artifact_id" params;
     URLParams.baseUrl := baseUrl |}.

(** [hasRequiredParams] *)
Definition hasRequiredParams (params : URLParams.t) : bool :=
  truthy_string (URLParams.userId params) &&
  truthy_string (URLParams.token params) &&
  truthy_string (URLParams.artifactId params) &&
  truthy_string (URLParams.baseUrl params).

(** ** Remote save and export (the remote-artifact variant of [App]) *)

(** What [fetch] is called with. *)
Record Request : Type := mkRequest {
  method : string;
  url : string;
  authorization : string;
  body : option string
}.

(** A [string | null] inside a template literal. *)
Definition template (v : option string) : string :=
  match v with
  | Some s => s
  | None => "null"
  end.

(** The platform's [parseInt], and [JSON.stringify(value, null, 2)]. *)
Class GlobalBuiltin : Type := {
  parseInt : string -> JSNumber;
  JSON_stringify_indent : JSValue -> string
}.

Section Remote.
Context `{JSON : JSONBuiltin} `{Global : GlobalBuiltin}.

(** The request of the mount effect, sent only with all launch
    parameters. *)
Definition fetchArtifactRequest (params : list (string * string)) : option Request :=
  let urlParams := getURLParams params in
  if hasRequiredParams urlParams then
    Some {| method := "GET";
            url := template (URLParams.baseUrl urlParams) +:+ "/studio/artifacts/info/"
                   +:+ template (URLParams.artifactId urlParams) +:+ "/";
            authorization := "Bearer " +:+ template (URLParams.token urlParams);
            body := None |}
  else None.

(** [handleSave]: the request sent, if any, and the key of the alert
    shown.  [fetch] answers a request with [Some ok], or with [None] when
    the request fails. *)
Definition handleSave (params : list (string * string)) (fetch : Request -> option bool)
    (st : AppState) : option Request * string :=
  if length (locations st) =? 0 then (None, "alert_noSave")
  else
    let urlParams := getURLParams params in
    if negb (hasRequiredParams urlParams) then (None, "alert_saveMissingParams")
    else
      let artifactData := JSON_stringify (Locations_to_js (locations st)) in
      let request :=
        {| method := "PUT";
           url := template (URLParams.baseUrl urlParams) +:+ "/studio/artifacts/update/"
                  +:+ template (URLParams.artifactId urlParams) +:+ "/";
           authorization := "Bearer " +:+ template (URLParams.token urlParams);
           body := Some (JSON_stringify
                           (JObj [("artifacts",
                                   JNum (parseInt (template (URLParams.artifactId urlParams))));
                                  ("artifact_data", JStr artifactData)])) |} in
      match fetch request with
      | Some true => (Some request, "alert_saveSuccess")
      | Some false => (Some request, "alert_saveError")
      | None => (Some request, "alert_saveError")
      end.

(** [handleExport]: the text of the file offered for download, or [None]
    when the list is empty and only an alert is shown. *)
Definition handleExport (st : AppState) : option string :=
  if length (locations st) =? 0 then None
  else Some (JSON_stringify_indent (Locations_to_js (locations st))).

End Remote.

(** A reference [parseInt] (without a radix: blanks, a sign, then decimal
    digits or [0x] and hexadecimal digits; exact below [2^53]) and a
    reference [JSON.stringify(value, null, 2)], for examples. *)
Module RefGlobal.

Fixpoint read_hex (s : string) (acc : Z) (count : nat) : Z * nat :=
  match s with
  | String c rest =>
      match RefJSON.hex_value c with
      | Some d => read_hex rest (acc * 16 + Z.of_nat d)%Z (S count)
      | None => (acc, count)
      end
  | EmptyString => (acc, count)
  end.

Definition parseInt (s : string) : JSNumber :=
  let s := RefJSON.skip_ws s in
  let '(negative, s) :=
    match s with
    | String "-" r => (true, r)
    | String "+" r => (false, r)
    | _ => (false, s)
    end in
  let '(n, count) :=
    match s with
    | String "0" (String "x" r) => read_hex r 0 0
    | String "0" (String "X" r) => read_hex r 0 0
    | _ => let '(n, count, _) := RefJSON.read_digits s 0 0 in (n, count)
    end in
  if count =? 0 then NaN
  else Finite (if negative then (- n)%Z # 1 else n # 1).

Definition newline : string := String "010"%char "".

Fixpoint spaces (n : nat) : string :=
  match n with
  | 0 => ""
  | S n => String " " (spaces n)
  end.

Fixpoint print_indented (depth : nat) (v : JSValue) : string :=
  match v with
  | JArr [] => "[]"
  | JArr items =>
      "["
      +:+ (fix elems (first : bool) (l : list JSValue) : string :=
             match l with
             | [] => ""
             | x :: rest =>
                 (if first then "" else ",") +:+ newline +:+ spaces (2 * S depth)
                 +:+ print_indented (S depth) x +:+ elems false rest
             end) true items
      +:+ newline +:+ spaces (2 * depth) +:+ "]"
  | JObj props =>
      let members :=
        (fix members (first : bool) (ps : list (string * JSValue)) : string :=
           match ps with
           | [] => ""
           | (k, JUndefined) :: rest => members first rest
           | (k, x) :: rest =>
               (if first then "" else ",") +:+ newline +:+ spaces (2 * S depth)
               +:+ RefJSON.print_string k +:+ ": " +:+ print_indented (S depth) x
               +:+ members false rest
           end) true props in
      if String.eqb members "" then "{}"
      else "{" +:+ members +:+ newline +:+ spaces (2 * depth) +:+ "}"
  | _ => RefJSON.print_value v
  end.

End RefGlobal.

Definition RefGlobal_builtin : GlobalBuiltin :=
  {| parseInt := RefGlobal.parseInt;
     JSON_stringify_indent := RefGlobal.print_indented 0 |}.

(** ** The tour flag and the language *)

(** The mount effect of the tour: it opens the tour (after a delay) unless
    the store holds a non-empty [tourViewed]. *)
Definition tourOpensOnMount (st : AppState) : bool :=
  negb (truthy_string (getItem "tourViewed" st)).

(** [handleTourClose] (the cell [isTourOpen] is not modelled). *)
Definition handleTourClose (st : AppState) : AppState :=
  setItem "tourViewed" "true" st.

Inductive Language : Type :=
| en
| ar.

Definition Language_tag (language : Language) : string :=
  match language with
  | en => "en"
  | ar => "ar"
  end.

(** The initial state of [LanguageProvider]. *)
Definition initialLanguage (st : AppState) : Language :=
  match getItem "language" st with
  | Some storedLang =>
      if String.eqb storedLang "ar" then ar
      else if String.eqb storedLang "en" then en
      else en
  | None => en
  end.

(** The effect of [LanguageProvider] on the store. *)
Definition storeLanguage (language : Language) (st : AppState) : AppState :=
  setItem "language" (Language_tag language) st.

(** [toggleLanguage] *)
Definition toggleLanguage (prevLang : Language) : Language :=
  match prevLang with
  | en => ar
  | ar => en
  end.

(** ** The location form *)

Module LocationForm.

(** The [useState] cells of [LocationForm] that [handleSubmit] reads. *)
Record Fields : Type := mkFields {
  title : string;
  description : string;
  imageUrl : string;
  videoUrl : string;
  audioUrl : string;
  questions : list Question.t;
  blockNavigation : bool
}.

Section Submit.
Context `{JSON : JSONBuiltin}.

(** [handleSubmit], with [onSave] bound to [handleSaveLocation] and the
    props [selectedCoords] and [selectedCountry] read from the state of
    [App]. *)
Definition handleSubmit (now : string) (fields : Fields) (st : AppState) : AppState :=
  if String.eqb (title fields) "" || String.eqb (description fields) ""
     || negb (bool_decide (is_Some (selectedCoords st)))
     || negb (truthy_string (selectedCountry st))
  then st (* alert(t('formAlert')) *)
  else
    handleSaveLocation now
      {| FormData.title := title fields;
         FormData.description := description fields;
         FormData.image := imageUrl fields;
         FormData.video := videoUrl fields;
         FormData.audio := audioUrl fields;
         FormData.questions := questions fields;
         FormData.block_navigation := blockNavigation fields |}
      st.

End Submit.

End LocationForm.

(** ** The search box ([MapSearchControl]) *)

Module Place.
Record t : Type := mk {
  place_id : JSNumber;
  lat : string;
  lon : string;
  boundingbox : option (string * string * string * string);
  display_name : string
}.
End Place.

Module MapSearchControl.

(** The [useState] cells of the component, and the query a pending
    debounce timer is going to fetch ([debounceTimeoutRef]). *)
Record State : Type := mkState {
  query : string;
  suggestions : list Place.t;
  isFetchingSuggestions : bool;
  showSuggestions : bool;
  highlightedIndex : Z;
  debounceTimeout : option string
}.

(** The props the component calls back. *)
Inductive Callback : Type :=
| onSearch (query : string)
| onPlaceSelect (place : Place.t).

Inductive Key : Type :=
| ArrowDown
| ArrowUp
| Escape
| Enter
| OtherKey.

(** [setSuggestions(v)]: every call stores a new array, so the effect on
    [[suggestions]] runs and resets the highlight. *)
Definition setSuggestions (v : list Place.t) (st : State) : State :=
  {| query := query st;
     suggestions := v;
     isFetchingSuggestions := isFetchingSuggestions st;
     showSuggestions := showSuggestions st;
     highlightedIndex := (-1)%Z;
     debounceTimeout := debounceTimeout st |}.

Definition setHighlightedIndex (v : Z) (st : State) : State :=
  {| query := query st;
     suggestions := suggestions st;
     isFetchingSuggestions := isFetchingSuggestions st;
     showSuggestions := showSuggestions st;
     highlightedIndex := v;
     debounceTimeout := debounceTimeout st |}.

Definition setShowSuggestions (v : bool) (st : State) : State :=
  {| query := query st;
     suggestions := suggestions st;
     isFetchingSuggestions := isFetchingSuggestions st;
     showSuggestions := v;
     highlightedIndex := highlightedIndex st;
     debounceTimeout := debounceTimeout st |}.

Definition setIsFetchingSuggestions (v : bool) (st : State) : State :=
  {| query := query st;
     suggestions := suggestions st;
     isFetchingSuggestions := v;
     showSuggestions := showSuggestions st;
     highlightedIndex := highlightedIndex st;
     debounceTimeout := debounceTimeout st |}.

Definition setQuery (v : string) (st : State) : State :=
  {| query := v;
     suggestions := suggestions st;
     isFetchingSuggestions := isFetchingSuggestions st;
     showSuggestions := showSuggestions st;
     highlightedIndex := highlightedIndex st;
     debounceTimeout := debounceTimeout st |}.

(** [clearTimeout] and [window.setTimeout] on the debounce timer. *)
Definition setDebounce (v : option string) (st : State) : State :=
  {| query := query st;
     suggestions := suggestions st;
     isFetchingSuggestions := isFetchingSuggestions st;
     showSuggestions := showSuggestions st;
     highlightedIndex := highlightedIndex st;
     debounceTimeout := v |}.

Definition initialState : State :=
  {| query := "";
     suggestions := [];
     isFetchingSuggestions := false;
     showSuggestions := false;
     highlightedIndex := (-1)%Z;
     debounceTimeout := None |}.

Section Component.
(** [s.length]: the number of UTF-16 code units of [s]. *)
Variable length_of : string -> nat.

(** [handleQueryChange] *)
Definition handleQueryChange (newQuery : string) (st : State) : State :=
  let st := setDebounce None (setQuery newQuery st) in
  if length_of newQuery <? 2 then
    setIsFetchingSuggestions false (setShowSuggestions false (setSuggestions [] st))
  else
    setDebounce (Some newQuery)
      (setIsFetchingSuggestions true (setShowSuggestions true st)).

(** The input's [onFocus]. *)
Definition onFocus (st : State) : State :=
  if 2 <=? length_of (query st) then setShowSuggestions true st else st.

End Component.

(** The debounce timer fires: the query it fetches, if one is pending. *)
Definition debounceFires (st : State) : option string * State :=
  (debounceTimeout st, setDebounce None st).

(** [fetchSuggestions] completes: [Some data] is the answer ([data || []],
    so an empty answer is the empty list), [None] a failed request. *)
Definition fetchSuggestions_done (data : option (list Place.t)) (st : State) : State :=
  let st :=
    match data with
    | Some places => setSuggestions places st
    | None => setSuggestions [] st
    end in
  setIsFetchingSuggestions false st.

(** [handleSuggestionClick] *)
Definition handleSuggestionClick (place : Place.t) (st : State) : State * Callback :=
  (setIsFetchingSuggestions false
     (setShowSuggestions false
        (setQuery (Place.display_name place) (setDebounce None st))),
   onPlaceSelect place).

(** [suggestions[i]] for a number [i]. *)
Definition suggestion_at (i : Z) (st : State) : option Place.t :=
  if (i <? 0)%Z then None else suggestions st !! Z.to_nat i.

(** [handleSubmit] *)
Definition handleSubmit (st : State) : State * Callback :=
  match (if (-1 <? highlightedIndex st)%Z then suggestion_at (highlightedIndex st) st
         else None) with
  | Some place => handleSuggestionClick place st
  | None => (setShowSuggestions false (setDebounce None st), onSearch (query st))
  end.

(** [handleKeyDown]; [%] is the remainder that takes the sign of the
    dividend. *)
Definition handleKeyDown (key : Key) (st : State) : State :=
  if negb (showSuggestions st) || (length (suggestions st) =? 0) then st
  else
    let n := Z.of_nat (length (suggestions st)) in
    match key with
    | ArrowDown => setHighlightedIndex (Z.rem (highlightedIndex st + 1) n) st
    | ArrowUp => setHighlightedIndex (Z.rem (highlightedIndex st - 1 + n) n) st
    | Escape => setHighlightedIndex (-1) (setShowSuggestions false st)
    | Enter => st
    | OtherKey => st
    end.

(** [onMouseEnter] of the row at [index]. *)
Definition onMouseEnter (index : nat) (st : State) : State :=
  setHighlightedIndex (Z.of_nat index) st.

(** [handleClickOutside], for a click outside the component. *)
Definition handleClickOutside (st : State) : State :=
  setShowSuggestions false st.

Inductive Event : Type :=
| QueryChange (newQuery : string)
| Focus
| DebounceFires
| FetchDone (data : option (list Place.t))
| SuggestionClick (place : Place.t)
| Submit
| KeyDown (key : Key)
| MouseEnter (index : nat)
| ClickOutside.

Definition handle (length_of : string -> nat) (st : State) (e : Event) : State :=
  match e with
  | QueryChange newQuery => handleQueryChange length_of newQuery st
  | Focus => onFocus length_of st
  | DebounceFires => snd (debounceFires st)
  | FetchDone data => fetchSuggestions_done data st
  | SuggestionClick place => fst (handleSuggestionClick place st)
  | Submit => fst (handleSubmit st)
  | KeyDown key => handleKeyDown key st
  | MouseEnter index => onMouseEnter index st
  | ClickOutside => handleClickOutside st
  end.

(** The rows on screen: those of [suggestions], while the list is shown,
    the query has two characters and no fetch is marked as running. *)
Definition rows (length_of : string -> nat) (st : State) : list Place.t :=
  if showSuggestions st && (1 <? length_of (query st)) && negb (isFetchingSuggestions st)
  then suggestions st else [].

(** An event the page as rendered can send: the pointer enters, and a
    click picks, only a row that is on screen. *)
Definition possible (length_of : string -> nat) (st : State) (e : Event) : Prop :=
  match e with
  | MouseEnter index => index < length (rows length_of st)
  | SuggestionClick place => In place (rows length_of st)
  | _ => True
  end.

Fixpoint possible_run (length_of : string -> nat) (st : State) (events : list Event) : Prop :=
  match events with
  | [] => True
  | e :: rest => possible length_of st e /\ possible_run length_of (handle length_of st e) rest
  end.

Definition run (length_of : string -> nat) (st : State) (events : list Event) : State :=
  fold_left (handle length_of) events st.

(** The highlight is no row ([-1]) or the index of a suggestion. *)
Definition highlight_ok (st : State) : Prop :=
  highlightedIndex st = (-1)%Z \/
  (0 <= highlightedIndex st < Z.of_nat (length (suggestions st)))%Z.

(** A pending debounce timer is for the text in the box, which has two
    characters or more. *)
Definition debounce_ok (length_of : string -> nat) (st : State) : Prop :=
  forall q : string, debounceTimeout st = Some q -> q = query st /\ 2 <= length_of q.

End MapSearchControl.

(** ** The quiz builder of the form, with its objects

    The handlers of [LocationForm] that edit options write into question
    objects and option arrays in place, and the same objects are held by
    the location under edit ([setQuestions(editingLocation.questions)]).
    Here a question is an object at an address, its [options] an array at
    an address, and the cell [questions] a list of addresses. *)
Module QuizBuilder.

Record QuestionObject : Type := mkQuestionObject {
  id : string;
  text : string;
  type : QuestionType;
  options : option nat;
  answer : string
}.

Record Heap : Type := mkHeap {
  objects : gmap nat QuestionObject;
  arrays : gmap nat (list string)
}.

Record State : Type := mkState {
  heap : Heap;
  questions : list nat
}.

(** A new object, at an address that is not in use. *)
Definition new_object (o : QuestionObject) (h : Heap) : nat * Heap :=
  let r := fresh (dom (objects h)) in
  (r, {| objects := <[r := o]> (objects h); arrays := arrays h |}).

Definition new_array (a : list string) (h : Heap) : nat * Heap :=
  let r := fresh (dom (arrays h)) in
  (r, {| objects := objects h; arrays := <[r := a]> (arrays h) |}).

Definition write_object (r : nat) (o : QuestionObject) (h : Heap) : Heap :=
  {| objects := <[r := o]> (objects h); arrays := arrays h |}.

Definition write_array (r : nat) (a : list string) (h : Heap) : Heap :=
  {| objects := objects h; arrays := <[r := a]> (arrays h) |}.

Definition set_answer (v : string) (o : QuestionObject) : QuestionObject :=
  {| id := id o; text := text o; type := type o; options := options o; answer := v |}.

Definition set_options (v : option nat) (o : QuestionObject) : QuestionObject :=
  {| id := id o; text := text o; type := type o; options := v; answer := answer o |}.

(** The question an address denotes: the object with its options read
    from the array it points to. *)
Definition read (h : Heap) (r : nat) : option Question.t :=
  match objects h !! r with
  | Some o =>
      match options o with
      | Some a =>
          match arrays h !! a with
          | Some opts =>
              Some {| Question.id := id o; Question.text := text o;
                      Question.type := type o; Question.options := Some opts;
                      Question.answer := answer o |}
          | None => None
          end
      | None =>
          Some {| Question.id := id o; Question.text := text o;
                  Question.type := type o; Question.options := None;
                  Question.answer := answer o |}
      end
  | None => None
  end.

(** The effect that fills the form from the location under edit:
    [setQuestions(editingLocation.questions || [])], the same objects. *)
Definition syncQuestions (locationQuestions : option (list nat)) (st : State) : State :=
  {| heap := heap st;
     questions := match locationQuestions with
                  | Some qs => qs
                  | None => []
                  end |}.

(** [handleAddQuestion]; [now] is the decimal text of [Date.now()]. *)
Definition handleAddQuestion (now : string) (st : State) : State :=
  let '(r, h) :=
    new_object {| id := "q_" +:+ now; text := ""; type := short_answer;
                  options := None; answer := "" |} (heap st) in
  {| heap := h; questions := questions st ++ [r] |}.

(** [handleRemoveQuestion] *)
Definition handleRemoveQuestion (index : nat) (st : State) : State :=
  {| heap := heap st; questions := delete index (questions st) |}.

(** The pair [(field, value)] of [handleQuestionChange], with a value of
    the type of the field. *)
Inductive FieldValue : Type :=
| field_id (value : string)
| field_text (value : string)
| field_type (value : QuestionType)
| field_options (value : option nat)
| field_answer (value : string).

(** [{ ...old, [field]: value }] *)
Definition with_field (old : QuestionObject) (fv : FieldValue) : QuestionObject :=
  match fv with
  | field_id value =>
      {| id := value; text := text old; type := type old; options := options old;
         answer := answer old |}
  | field_text value =>
      {| id := id old; text := value; type := type old; options := options old;
         answer := answer old |}
  | field_type value =>
      {| id := id old; text := text old; type := value; options := options old;
         answer := answer old |}
  | field_options value => set_options value old
  | field_answer value => set_answer value old
  end.

(** [handleQuestionChange].  The changed question is a new object.  An
    [index] outside the list would spread [undefined] and store an object
    that lacks the other fields: that outcome is [None]. *)
Definition handleQuestionChange (index : nat) (fv : FieldValue) (st : State) : option State :=
  match questions st !! index with
  | Some r =>
      match objects (heap st) !! r with
      | Some old =>
          let question := with_field old fv in
          let '(question, h) :=
            match fv with
            | field_type value =>
                (* Reset dependent fields when type changes *)
                let question := set_answer "" question in
                let '(question, h) :=
                  match value with
                  | multiple_choice =>
                      let '(a, h) := new_array [""; ""] (heap st) in
                      (set_options (Some a) question, h)
                  | _ => (set_options None question, heap st)
                  end in
                let question :=
                  match value with
                  | true_false => set_answer "true" question
                  | _ => question
                  end in
                (question, h)
            | _ => (question, heap st)
            end in
          let '(r', h) := new_object question h in
          Some {| heap := h; questions := <[index := r']> (questions st) |}
      | None => None
      end
  | None => None
  end.

(** [handleOptionChange].  Reading [options] of a question that is not
    in the list throws; writing past the end of the array would leave
    holes in it: both are [None]. *)
Definition handleOptionChange (qIndex oIndex : nat) (text : string) (st : State)
    : option State :=
  match questions st !! qIndex with
  | Some r =>
      match objects (heap st) !! r with
      | Some question =>
          match options question with
          | Some a =>
              match arrays (heap st) !! a with
              | Some opts =>
                  (* If the updated option was the correct answer, update
                     the answer value as well *)
                  let question :=
                    if bool_decide (opts !! oIndex = Some (answer question))
                    then set_answer text question else question in
                  if oIndex <? length opts then
                    Some {| heap := write_array a (<[oIndex := text]> opts)
                                      (write_object r question (heap st));
                            questions := questions st |}
                  else if oIndex =? length opts then
                    Some {| heap := write_array a (opts ++ [text])
                                      (write_object r question (heap st));
                            questions := questions st |}
                  else None
              | None => None
              end
          | None => Some st
          end
      | None => None
      end
  | None => None
  end.

(** [handleAddOption] *)
Definition handleAddOption (qIndex : nat) (st : State) : option State :=
  match questions st !! qIndex with
  | Some r =>
      match objects (heap st) !! r with
      | Some question =>
          match options question with
          | Some a =>
              match arrays (heap st) !! a with
              | Some opts =>
                  Some {| heap := write_array a (opts ++ [""]) (heap st);
                          questions := questions st |}
              | None => None
              end
          | None => Some st
          end
      | None => None
      end
  | None => None
  end.

(** [handleRemoveOption] *)
Definition handleRemoveOption (qIndex oIndex : nat) (st : State) : option State :=
  match questions st !! qIndex with
  | Some r =>
      match objects (heap st) !! r with
      | Some question =>
          match options question with
          | Some a =>
              match arrays (heap st) !! a with
              | Some opts =>
                  if 1 <? length opts then
                    (* If the removed option was the correct answer, clear
                       the answer *)
                    let question :=
                      if bool_decide (opts !! oIndex = Some (answer question))
                      then set_answer "" question else question in
                    Some {| heap := write_array a (delete oIndex opts)
                                      (write_object r question (heap st));
                            questions := questions st |}
                  else Some st
              | None => None
              end
          | None => Some st
          end
      | None => None
      end
  | None => None
  end.

(** The answer of a question with options is empty or one of them. *)
Definition answer_among_options (q : Question.t) : Prop :=
  match Question.options q with
  | Some opts => Question.answer q = "" \/ In (Question.answer q) opts
  | None => True
  end.

End QuizBuilder.

(** ** The list in memory, with its question objects

    The records of [locations] are objects, and the [questions] of a
    record is an array of question objects: the very objects the form
    edits once the record is opened (a row's edit button calls
    [onStartEdit(location)] with the record of the list, [handleStartEdit]
    stores it in [editingLocation], and the form's effect runs
    [setQuestions(editingLocation.questions || [])]).  No handler writes
    another property of a record in place, so those are plain values
    here. *)
Module Memory.

(** A record of the list: [questions] holds the addresses of its
    question objects; [properties] gives its other properties (the
    [questions] of [properties] is not read). *)
Record LocationObject : Type := mkLocationObject {
  properties : Location.t;
  questions : option (list nat)
}.

Definition with_questions (v : option (list Question.t)) (loc : Location.t) : Location.t :=
  {| Location.id := Location.id loc;
     Location.title := Location.title loc;
     Location.country := Location.country loc;
     Location.description := Location.description loc;
     Location.image := Location.image loc;
     Location.video := Location.video loc;
     Location.audio := Location.audio loc;
     Location.coordinates := Location.coordinates loc;
     Location.questions := v;
     Location.block_navigation := Location.block_navigation loc |}.

(** The record an object denotes in the heap [h]. *)
Definition view (h : QuizBuilder.Heap) (location : LocationObject) : option Location.t :=
  match questions location with
  | Some rs =>
      match mapM (QuizBuilder.read h) rs with
      | Some qs => Some (with_questions (Some qs) (properties location))
      | None => None
      end
  | None => Some (with_questions None (properties location))
  end.

(** The state of [App] whose cell [locations] holds the objects
    [records] and whose cell [editingLocation] holds [editing], as they
    read in the heap [h]; the other cells and the store are those of
    [st]. *)
Definition reread (h : QuizBuilder.Heap) (records : list LocationObject)
    (editing : option LocationObject) (st : AppState) : option AppState :=
  match mapM (view h) records with
  | Some l =>
      match editing with
      | Some location =>
          match view h location with
          | Some e => Some (setEditingLocation (Some e) (setLocations l st))
          | None => None
          end
      | None => Some (setEditingLocation None (setLocations l st))
      end
  | None => None
  end.

(** [handleEdit] of a row of the list: [onStartEdit(location)], with
    [onStartEdit] bound to [handleStartEdit]. *)
Definition handleEdit (h : QuizBuilder.Heap) (location : LocationObject) (st : AppState)
    : option AppState :=
  match view h location with
  | Some loc => Some (handleStartEdit loc st)
  | None => None
  end.

End Memory.

(** ** Notions the properties are stated with *)

Section Notions.
Context `{JSON : JSONBuiltin}.

(** The stored copy is the serialization of the list in memory. *)
Definition in_sync (st : AppState) : Prop :=
  getItem "locations" st = Some (JSON_stringify (Locations_to_js (locations st))).

Definition ids (st : AppState) : list string := map Location.id (locations st).

(** Whether handling [a] in [st] reaches a [setLocations] call: the guard
    of [handleSaveLocation] passes, the import is confirmed and valid, the
    clearing is confirmed, the reorder splices an item out. *)
Definition mutates (st : AppState) (a : Action) : bool :=
  match a with
  | Insert _ => true
  | SaveLocation _ _ =>
      match selection st with
      | Some _ => true
      | None => false
      end
  | DeleteLocation _ => true
  | ReorderLocations oldIndex _ =>
      match fst (splice oldIndex 1 [] (locations st)) with
      | _ :: _ => true
      | [] => false
      end
  | Import text confirmed =>
      confirmed &&
      match JSON_parse text with
      | Some jsonData =>
          match validateLocationsData jsonData with
          | Some _ => true
          | None => false
          end
      | None => false
      end
  | ClearAllLocations confirmed => confirmed
  | StartEdit _ => false
  | CancelEdit => false
  | MapClick _ _ => false
  end.

(** Serializing a list as [updateStoredLocations] does, then parsing and
    validating the text as the mount effect and the import do. *)
Definition validate_parse_serialize (l : list Location.t) : option (list Location.t) :=
  match JSON_parse (JSON_stringify (Locations_to_js l)) with
  | Some parsedData => validateLocationsData parsedData
  | None => None
  end.

(** The runs the uniqueness invariant is stated for: made of insert,
    save (create or update), delete and reorder, and of the events that
    only move the selection.  The layer does not check ids, so the caller
    is to bring a fresh one: an inserted record, and the timestamp a
    create takes as id, must not be in the list already.  A reorder must
    splice an item out. *)
Definition admissible (st : AppState) (a : Action) : Prop :=
  match a with
  | Insert newLocation => ~ In (Location.id newLocation) (ids st)
  | SaveLocation now _ =>
      editingLocation st = None -> selection st <> None -> ~ In now (ids st)
  | DeleteLocation _ => True
  | ReorderLocations _ _ => mutates st a = true
  | Import _ _ => False
  | ClearAllLocations _ => False
  | StartEdit _ => True
  | CancelEdit => True
  | MapClick _ _ => True
  end.

Fixpoint admissible_run (st : AppState) (actions : list Action) : Prop :=
  match actions with
  | [] => True
  | a :: rest =>
      admissible st a /\
      forall st', step st a = Some st' -> admissible_run st' rest
  end.

End Notions.

(** The values the check [x === null || typeof x === 'string'] lets
    through. *)
Definition null_or_string (v : JSValue) : Prop :=
  match v with
  | JNull => True
  | JStr _ => True
  | JUndefined => False
  | JBool _ => False
  | JNum _ => False
  | JArr _ => False
  | JObj _ => False
  end.

(** Both coordinates are finite numbers. *)
Definition finite_coordinates (loc : Location.t) : Prop :=
  isFinite (fst (Location.coordinates loc)) = true /\
  isFinite (snd (Location.coordinates loc)) = true.

(** The list without the first record whose id is [id]: what the
    specification says [delete(id)] leaves. *)
Fixpoint spec_delete_first (id : string) (l : list Location.t) : list Location.t :=
  match l with
  | [] => []
  | loc :: rest =>
      if String.eqb (Location.id loc) id then rest
      else loc :: spec_delete_first id rest
  end.

(** ** Sample data *)
Module Sample.

Definition q1 : Question.t :=
  {| Question.id := "q1";
     Question.text := "Is Petra carved into rock?";
     Question.type := true_false;
     Question.options := None;
     Question.answer := "true" |}.

Definition q2 : Question.t :=
  {| Question.id := "q2";
     Question.text := "Who built it?";
     Question.type := multiple_choice;
     Question.options := Some ["Nabataeans"; "Romans"];
     Question.answer := "Nabataeans" |}.

Definition petra : Location.t :=
  {| Location.id := "2024-05-01T10:00:00.000Z";
     Location.title := "Petra";
     Location.country := "Jordan";
     Location.description := "<p>The rose city</p>";
     Location.image := "";
     Location.video := None;
     Location.audio := Some "https://example.org/petra.mp3";
     Location.coordinates := (Finite (3033 # 100), Finite (3543 # 100));
     Location.questions := Some [q1; q2];
     Location.block_navigation := Some true |}.

Definition amman : Location.t :=
  {| Location.id := "2024-05-01T10:05:00.000Z";
     Location.title := "Amman";
     Location.country := "Jordan";
     Location.description := "<p>The capital</p>";
     Location.image := "https://example.org/amman.png";
     Location.video := Some "https://example.org/amman.mp4";
     Location.audio := None;
     Location.coordinates := (Finite (319 # 10), Finite (359 # 10));
     Location.questions := None;
     Location.block_navigation := None |}.

Definition jerash : Location.t :=
  {| Location.id := "2024-05-01T10:09:00.000Z";
     Location.title := "Jerash";
     Location.country := "Jordan";
     Location.description := "<p>Roman ruins</p>";
     Location.image := "";
     Location.video := None;
     Location.audio := None;
     Location.coordinates := (Finite (323 # 10), Finite (359 # 10));
     Location.questions := Some [];
     Location.block_navigation := Some false |}.

Definition aqaba : Location.t :=
  {| Location.id := "2024-05-01T10:12:00.000Z";
     Location.title := "Aqaba";
     Location.country := "Jordan";
     Location.description := "<p>The Red Sea</p>";
     Location.image := "";
     Location.video := None;
     Location.audio := None;
     Location.coordinates := (Finite (2953 # 100), Finite 35);
     Location.questions := None;
     Location.block_navigation := None |}.

(** A record whose [title] is a number. *)
Definition wrong_typed : JSValue := assign "title" (JNum (Finite 5)) (Location_to_js amman).

(** A record whose [video] is a number. *)
Definition numeric_video : JSValue := assign "video" (JNum (Finite 7)) (Location_to_js amman).

(** A location at a latitude that is not finite, as an import of the
    text [1e999] produces it. *)
Definition off_the_map : Location.t :=
  {| Location.id := "2024-05-01T10:20:00.000Z";
     Location.title := "Nowhere";
     Location.country := "Jordan";
     Location.description := "<p>?</p>";
     Location.image := "";
     Location.video := None;
     Location.audio := None;
     Location.coordinates := (PosInfinity, Finite 0);
     Location.questions := None;
     Location.block_navigation := None |}.

Definition form : FormData.t :=
  {| FormData.title := "Wadi Rum";
     FormData.description := "<p>The valley of the moon</p>";
     FormData.image := "";
     FormData.video := "";
     FormData.audio := "https://example.org/rum.mp3";
     FormData.questions := [q1];
     FormData.block_navigation := false |}.

(** A second record that carries Petra's id. *)
Definition petra_twin : Location.t :=
  {| Location.id := Location.id petra;
     Location.title := "Little Petra";
     Location.country := "Jordan";
     Location.description := "<p>Siq al-Barid</p>";
     Location.image := "";
     Location.video := None;
     Location.audio := None;
     Location.coordinates := (Finite (3041 # 100), Finite (3543 # 100));
     Location.questions := None;
     Location.block_navigation := None |}.

(** A record without [coordinates]. *)
Definition missing_coordinates : JSValue :=
  JObj (List.filter (fun p => negb (String.eqb (fst p) "coordinates"))
          (match Location_to_js amman with
           | JObj props => props
           | _ => []
           end)).

Definition corrupt : string := "{not json".

Definition quoted (s : string) : string :=
  String RefJSON.quote (s +:+ String RefJSON.quote "").

(** An import file whose one record has the latitude [1e999]. *)
Definition overflowing_import : string :=
  "[{" +:+ quoted "id" +:+ ":" +:+ quoted "2024-05-01T10:20:00.000Z"
  +:+ "," +:+ quoted "title" +:+ ":" +:+ quoted "Nowhere"
  +:+ "," +:+ quoted "country" +:+ ":" +:+ quoted "Jordan"
  +:+ "," +:+ quoted "description" +:+ ":" +:+ quoted "<p>?</p>"
  +:+ "," +:+ quoted "image" +:+ ":" +:+ quoted ""
  +:+ "," +:+ quoted "video" +:+ ":null"
  +:+ "," +:+ quoted "audio" +:+ ":null"
  +:+ "," +:+ quoted "coordinates" +:+ ":[1e999, 0]}]".

Definition state (l : list Location.t) : AppState :=
  {| locations := l;
     selectedCoords := None;
     selectedCountry := None;
     editingLocation := None;
     localStorage := ∅ |}.

(** The launch parameters of a session. *)
Definition launch : list (string * string) :=
  [("userId", "17"); ("token", "s3cr3t"); ("artifact_id", "42");
   ("base_url", "https://api.example.org/")].

(** An endpoint that accepts every request. *)
Definition accepting (request : Request) : option bool := Some true.

Definition fields : LocationForm.Fields :=
  {| LocationForm.title := "Wadi Rum";
     LocationForm.description := "<p>The valley of the moon</p>";
     LocationForm.imageUrl := "";
     LocationForm.videoUrl := "";
     LocationForm.audioUrl := "https://example.org/rum.mp3";
     LocationForm.questions := [q1];
     LocationForm.blockNavigation := false |}.

Definition place (name : string) : Place.t :=
  {| Place.place_id := Finite 1;
     Place.lat := "30.33";
     Place.lon := "35.44";
     Place.boundingbox := None;
     Place.display_name := name |}.

(** The search box after [pe] was typed, the timer fired and three places
    came back. *)
Definition typed_and_fetched : list MapSearchControl.Event :=
  [MapSearchControl.QueryChange "pe"; MapSearchControl.DebounceFires;
   MapSearchControl.FetchDone (Some [place "Petra"; place "Perth"; place "Peru"])].

(** The quiz builder holding the object of [q2] and its option array, as
    after opening a record that has this question. *)
Definition quiz : QuizBuilder.State :=
  {| QuizBuilder.heap :=
       {| QuizBuilder.objects :=
            {[ 0 := {| QuizBuilder.id := "q2";
                       QuizBuilder.text := "Who built it?";
                       QuizBuilder.type := multiple_choice;
                       QuizBuilder.options := Some 0;
                       QuizBuilder.answer := "Nabataeans" |} ]};
          QuizBuilder.arrays := {[ 0 := ["Nabataeans"; "Romans"] ]} |};
     QuizBuilder.questions := [0] |}.

(** The heap holding the two question objects of Petra, and Petra as an
    object of the list. *)
Definition petra_heap : QuizBuilder.Heap :=
  {| QuizBuilder.objects :=
       {[ 0 := {| QuizBuilder.id := "q2";
                  QuizBuilder.text := "Who built it?";
                  QuizBuilder.type := multiple_choice;
                  QuizBuilder.options := Some 0;
                  QuizBuilder.answer := "Nabataeans" |};
          1 := {| QuizBuilder.id := "q1";
                  QuizBuilder.text := "Is Petra carved into rock?";
                  QuizBuilder.type := true_false;
                  QuizBuilder.options := None;
                  QuizBuilder.answer := "true" |} ]};
     QuizBuilder.arrays := {[ 0 := ["Nabataeans"; "Romans"] ]} |}.

Definition petra_object : Memory.LocationObject :=
  {| Memory.properties := petra; Memory.questions := Some [1; 0] |}.

End Sample.

(** * Properties *)

(** ** Lists *)

Lemma filter_length_all {A : Type} (f : A -> bool) (l : list A) :
  length (List.filter f l) = length l -> forallb f l = true.
Proof.
  induction l as [|x l IH]; simpl; [reflexivity|].
  destruct (f x) eqn:Hx; simpl; intros Hlen.
  - apply IH. lia.
  - pose proof (List.filter_length_le f l). lia.
Qed.

Lemma filter_all {A : Type} (f : A -> bool) (l : list A) :
  forallb f l = true -> List.filter f l = l.
Proof.
  induction l as [|x l IH]; simpl; [reflexivity|].
  intros [Hx Hl]%andb_true_iff. rewrite Hx, IH; auto.
Qed.

(** ** The validator *)

(** What the validator returns when it returns a list: every element of
    the input passed the guard, and the list is their typed view, in
    order. *)
Lemma validateLocationsData_Some (data : JSValue) (accepted : list Location.t) :
  validateLocationsData data = Some accepted ->
  exists items, data = JArr items /\ forallb isLocation items = true /\
                accepted = map asLocation items.
Proof.
  unfold validateLocationsData. destruct data; simpl; try discriminate.
  destruct (length (List.filter isLocation items) =? length items) eqn:Hlen;
    simpl; [|discriminate].
  apply Nat.eqb_eq, filter_length_all in Hlen.
  intros [= <-]. exists items. rewrite (filter_all _ _ Hlen). auto.
Qed.

Lemma validateLocationsData_all (items : list JSValue) :
  forallb isLocation items = true ->
  validateLocationsData (JArr items) = Some (map asLocation items).
Proof.
  intros Hall. unfold validateLocationsData. simpl.
  rewrite (filter_all _ _ Hall), Nat.eqb_refl. reflexivity.
Qed.

Lemma validateLocationsData_reject (items : list JSValue) (bad : JSValue) :
  In bad items -> isLocation bad = false ->
  validateLocationsData (JArr items) = None.
Proof.
  intros Hin Hbad.
  destruct (validateLocationsData (JArr items)) as [accepted|] eqn:Hv; [|reflexivity].
  apply validateLocationsData_Some in Hv as (items' & [= <-] & Hall & _).
  rewrite forallb_forall in Hall. rewrite (Hall _ Hin) in Hbad. discriminate.
Qed.

Lemma lookup_set_prop_eq (k : string) (v : JSValue) (props : list (string * JSValue)) :
  lookup_prop k (set_prop k v props) = v.
Proof.
  induction props as [|[k' v'] props IH]; simpl.
  - rewrite String.eqb_refl. reflexivity.
  - destruct (String.eqb k k') eqn:Hk; simpl; rewrite Hk; auto.
Qed.

Lemma lookup_set_prop_ne (k k' : string) (v : JSValue) (props : list (string * JSValue)) :
  k <> k' -> lookup_prop k' (set_prop k v props) = lookup_prop k' props.
Proof.
  intros Hne. induction props as [|[k0 v0] props IH]; simpl.
  - destruct (String.eqb_spec k' k); [congruence|reflexivity].
  - destruct (String.eqb_spec k k0) as [->|Hk0]; simpl.
    + destruct (String.eqb_spec k' k0); [congruence|reflexivity].
    + rewrite IH. reflexivity.
Qed.

Lemma null_or_string_check (v : JSValue) :
  is_null v || String.eqb (typeof v) "string" = true <-> null_or_string v.
Proof. destruct v; simpl; intuition discriminate. Qed.

Ltac split_checks H :=
  repeat (let Hc := fresh "Hcheck" in apply andb_true_iff in H as [H Hc]).

Lemma isLocation_media (loc : JSValue) :
  isLocation loc = true ->
  null_or_string (get loc "video") /\ null_or_string (get loc "audio").
Proof.
  unfold isLocation. intros H. split_checks H.
  split; apply null_or_string_check; assumption.
Qed.

(** *** Run-time objects of records pass the guard *)

Lemma forallb_string_options (opts : list string) :
  forallb (fun opt => String.eqb (typeof opt) "string") (map JStr opts) = true.
Proof. induction opts as [|o opts IH]; simpl; auto. Qed.

Lemma map_as_string_JStr (opts : list string) : map as_string (map JStr opts) = opts.
Proof. induction opts as [|o opts IH]; simpl; congruence. Qed.

Lemma isQuestion_to_js (q : Question.t) : isQuestion (Question_to_js q) = true.
Proof.
  destruct q as [qid qtext [] [opts|] qanswer]; unfold isQuestion; cbn;
    auto using forallb_string_options.
Qed.

Lemma asQuestion_to_js (q : Question.t) : asQuestion (Question_to_js q) = q.
Proof.
  destruct q as [qid qtext [] [opts|] qanswer]; unfold asQuestion; cbn;
    rewrite ?map_as_string_JStr; reflexivity.
Qed.

Lemma forallb_isQuestion_to_js (qs : list Question.t) :
  forallb isQuestion (map Question_to_js qs) = true.
Proof.
  induction qs as [|q qs IH]; simpl; [reflexivity|].
  rewrite isQuestion_to_js, IH. reflexivity.
Qed.

Lemma map_asQuestion_to_js (qs : list Question.t) :
  map asQuestion (map Question_to_js qs) = qs.
Proof.
  induction qs as [|q qs IH]; simpl; [reflexivity|].
  rewrite asQuestion_to_js, IH. reflexivity.
Qed.

Lemma isLocation_to_js (loc : Location.t) : isLocation (Location_to_js loc) = true.
Proof.
  destruct loc as [lid ltitle lcountry ldesc limage [v|] [a|] [lat lng] [qs|] [b|]];
    unfold isLocation; cbn; rewrite ?forallb_isQuestion_to_js; reflexivity.
Qed.

Lemma asLocation_to_js (loc : Location.t) : asLocation (Location_to_js loc) = loc.
Proof.
  destruct loc as [lid ltitle lcountry ldesc limage [v|] [a|] [lat lng] [qs|] [b|]];
    unfold asLocation; cbn; rewrite ?map_asQuestion_to_js; reflexivity.
Qed.

Lemma forallb_isLocation_to_js (l : list Location.t) :
  forallb isLocation (map Location_to_js l) = true.
Proof.
  induction l as [|loc l IH]; simpl; [reflexivity|].
  rewrite isLocation_to_js, IH. reflexivity.
Qed.

Lemma map_asLocation_to_js (l : list Location.t) :
  map asLocation (map Location_to_js l) = l.
Proof.
  induction l as [|loc l IH]; simpl; [reflexivity|].
  rewrite asLocation_to_js, IH. reflexivity.
Qed.

(** Validating the run-time objects of a typed list gives the list back. *)
Lemma validateLocationsData_to_js (l : list Location.t) :
  validateLocationsData (Locations_to_js l) = Some l.
Proof.
  unfold Locations_to_js.
  rewrite validateLocationsData_all by apply forallb_isLocation_to_js.
  rewrite map_asLocation_to_js. reflexivity.
Qed.

(** C1. If any element of the input array fails the guard, the validator
    returns [null] for the whole input, however many other elements are
    well-formed: it does not return the sub-list of accepted elements. *)
Theorem validate_all_or_nothing (items : list JSValue) (bad : JSValue) :
  In bad items ->
  isLocation bad = false ->
  validateLocationsData (JArr items) = None.
Proof.
  intros Hin Hbad. eapply validateLocationsData_reject; eassumption.
Qed.

Lemma validate_all_or_nothing_witness :
  validateLocationsData
    (JArr [Location_to_js Sample.petra; Sample.wrong_typed; Location_to_js Sample.jerash])
  = None.
Proof.
  apply (validate_all_or_nothing _ Sample.wrong_typed).
  - simpl. right. left. reflexivity.
  - vm_compute. reflexivity.
Defined.

(** *** [video] and [audio] *)

Lemma get_assign_eq (k : string) (v : JSValue) (props : list (string * JSValue)) :
  get (assign k v (JObj props)) k = v.
Proof. simpl. apply lookup_set_prop_eq. Qed.

Lemma get_assign_ne (k k' : string) (v o : JSValue) :
  k <> k' -> get (assign k v o) k' = get o k'.
Proof.
  intros Hne. destruct o; simpl; try reflexivity.
  apply lookup_set_prop_ne. assumption.
Qed.

Lemma isLocation_with_media (loc : Location.t) (v a : JSValue) :
  isLocation (assign "audio" a (assign "video" v (Location_to_js loc))) = true <->
  null_or_string v /\ null_or_string a.
Proof.
  pose proof (isLocation_to_js loc) as Hloc.
  set (o := Location_to_js loc) in *.
  assert (Hobj : exists props, o = JObj props) by (eexists; reflexivity).
  destruct Hobj as [props Hprops].
  assert (Hv : get (assign "audio" a (assign "video" v o)) "video" = v).
  { rewrite get_assign_ne by discriminate. rewrite Hprops. apply get_assign_eq. }
  assert (Ha : get (assign "audio" a (assign "video" v o)) "audio" = a).
  { rewrite Hprops. apply get_assign_eq. }
  assert (Hother : forall k, "audio" <> k -> "video" <> k ->
            get (assign "audio" a (assign "video" v o)) k = get o k).
  { intros k H1 H2. rewrite !get_assign_ne by assumption. reflexivity. }
  assert (Htruthy : truthy (assign "audio" a (assign "video" v o)) = true).
  { rewrite Hprops. reflexivity. }
  rewrite <- !null_or_string_check.
  unfold isLocation in *. rewrite Htruthy, Hv, Ha.
  rewrite !Hother by discriminate.
  clearbody o. split_checks Hloc.
  repeat match goal with H : _ = true |- _ => rewrite H; clear H end.
  simpl. rewrite !andb_true_r, andb_true_iff. reflexivity.
Qed.

Lemma forallb_isLocation_with_media (entries : list (Location.t * (JSValue * JSValue))) :
  forallb isLocation
    (map (fun e => assign "audio" (snd (snd e))
                     (assign "video" (fst (snd e)) (Location_to_js (fst e)))) entries)
  = true <->
  Forall (fun e => null_or_string (fst (snd e)) /\ null_or_string (snd (snd e))) entries.
Proof.
  induction entries as [|e entries IH]; cbn [map forallb].
  - split; [constructor|reflexivity].
  - rewrite andb_true_iff, isLocation_with_media, IH, Forall_cons. reflexivity.
Qed.

(** C9. The guard lets a location through only when its [video] and its
    [audio] are each [null] or a string; a location that is otherwise
    well-formed is accepted exactly when they are; and an element with any
    other [video] or [audio] (undefined, a number, a boolean, an object,
    an array) makes the whole input invalid.  For the validator itself:
    an array of otherwise well-formed locations is accepted, and returned
    whole, when every [video] and [audio] in it is [null] or a string,
    and is rejected when one is not. *)
Theorem video_audio_null_or_string :
  (forall loc : JSValue,
      isLocation loc = true ->
      null_or_string (get loc "video") /\ null_or_string (get loc "audio")) /\
  (forall (loc : Location.t) (v a : JSValue),
      isLocation (assign "audio" a (assign "video" v (Location_to_js loc))) = true <->
      null_or_string v /\ null_or_string a) /\
  (forall (items : list JSValue) (loc : JSValue),
      In loc items ->
      ~ (null_or_string (get loc "video") /\ null_or_string (get loc "audio")) ->
      validateLocationsData (JArr items) = None) /\
  (forall entries : list (Location.t * (JSValue * JSValue)),
      let items :=
        map (fun e => assign "audio" (snd (snd e))
                        (assign "video" (fst (snd e)) (Location_to_js (fst e)))) entries in
      let accepted :=
        Forall (fun e => null_or_string (fst (snd e)) /\ null_or_string (snd (snd e)))
          entries in
      (accepted -> validateLocationsData (JArr items) = Some (map asLocation items)) /\
      (~ accepted -> validateLocationsData (JArr items) = None)).
Proof.
  split; [exact isLocation_media|].
  split; [exact isLocation_with_media|].
  split.
  - intros items loc Hin Hbad.
    apply (validateLocationsData_reject items loc Hin).
    destruct (isLocation loc) eqn:Hloc; [|reflexivity].
    exfalso. apply Hbad, isLocation_media, Hloc.
  - intros entries items accepted. split.
    + intros Hok. apply validateLocationsData_all.
      apply forallb_isLocation_with_media. exact Hok.
    + intros Hbad.
      destruct (validateLocationsData (JArr items)) as [l|] eqn:Hv; [|reflexivity].
      apply validateLocationsData_Some in Hv as (items' & [= <-] & Hall & _).
      exfalso. apply Hbad, forallb_isLocation_with_media, Hall.
Qed.

Lemma video_audio_null_or_string_witness :
  validateLocationsData (JArr [Location_to_js Sample.petra; Sample.numeric_video]) = None /\
  isLocation (assign "audio" JNull (assign "video" (JStr "v.mp4") (Location_to_js Sample.petra)))
  = true /\
  validateLocationsData
    (JArr [assign "audio" JNull (assign "video" (JStr "v.mp4") (Location_to_js Sample.petra));
           assign "audio" (JStr "a.mp3") (assign "video" JNull (Location_to_js Sample.amman))])
  <> None /\
  validateLocationsData
    (JArr [assign "audio" JNull (assign "video" (JStr "v.mp4") (Location_to_js Sample.petra));
           assign "audio" JUndefined (assign "video" JNull (Location_to_js Sample.amman))])
  = None.
Proof.
  split; [|split; [|split]].
  - apply (proj1 (proj2 (proj2 video_audio_null_or_string)) _ Sample.numeric_video).
    + simpl. right. left. reflexivity.
    + vm_compute. intros [[] _].
  - apply (proj1 (proj2 video_audio_null_or_string)). simpl. split; exact I.
  - intros Hnone.
    pose proof (proj1 (proj2 (proj2 (proj2 video_audio_null_or_string))
                         [(Sample.petra, (JStr "v.mp4", JNull));
                          (Sample.amman, (JNull, JStr "a.mp3"))])
                  ltac:(repeat constructor)) as Haccepted.
    cbn [map fst snd] in Haccepted. rewrite Hnone in Haccepted. discriminate.
  - apply (proj2 (proj2 (proj2 (proj2 video_audio_null_or_string))
                    [(Sample.petra, (JStr "v.mp4", JNull));
                     (Sample.amman, (JNull, JUndefined))])).
    intros Hall. inversion Hall as [|e l _ Hrest]. inversion Hrest as [|e' l' [_ Hbad] _].
    exact Hbad.
Defined.

(** ** Startup *)

Section Startup.
Context `{JSON : JSONBuiltin}.

Lemma loadStoredLocations_valid (stored : gmap string string) (s : string) (d : JSValue)
    (l : list Location.t) :
  stored !! "locations" = Some s -> s <> "" ->
  JSON_parse s = Some d -> validateLocationsData d = Some l ->
  let st := loadStoredLocations (initialState stored) in
  locations st = l /\ localStorage st = stored.
Proof.
  intros Hs Hne Hp Hv. unfold loadStoredLocations, getItem. simpl.
  rewrite Hs. destruct (String.eqb_spec s ""); [contradiction|]. simpl.
  rewrite Hp, Hv. simpl. split; reflexivity.
Qed.

(** C2, as the code behaves.  When the stored string is not JSON, the
    mount effect leaves the list in memory empty and leaves the store as
    it was: the key [locations] still holds the corrupt string.  The
    same holds for the fallback of the remote-artifact variant. *)
Theorem startup_corrupt_json_is_kept (stored : gmap string string) (s : string) :
  stored !! "locations" = Some s ->
  JSON_parse s = None ->
  let st := loadStoredLocations (initialState stored) in
  locations st = [] /\
  localStorage st = stored /\
  getItem "locations" st = Some s /\
  fetchArtifactData None (initialState stored) = st.
Proof.
  intros Hs Hp. unfold fetchArtifactData, loadStoredLocations, getItem. simpl.
  rewrite Hs, Hp. destruct (negb (String.eqb s "")); simpl; repeat split; auto.
Qed.

End Startup.

Lemma startup_corrupt_json_is_kept_witness :
  let stored : gmap string string := {[ "locations" := Sample.corrupt ]} in
  let st := @loadStoredLocations RefJSON_builtin (initialState stored) in
  locations st = [] /\ getItem "locations" st = Some "{not json".
Proof.
  intros stored st.
  destruct (@startup_corrupt_json_is_kept RefJSON_builtin stored Sample.corrupt)
    as (Hl & _ & Hk & _).
  - reflexivity.
  - vm_compute. reflexivity.
  - split; assumption.
Defined.

(** ** The store follows the list *)

Section Store.
Context `{JSON : JSONBuiltin}.

Ltac unfold_handlers :=
  unfold in_sync, ids, getItem, insert, handleClearAllLocations, handleCancelEdit,
    handleStartEdit, updateStoredLocations, setItem, removeItem, setLocations,
    setEditingLocation, setSelectedCountry, setSelectedCoords in *.

Lemma in_sync_set_then_store (l : list Location.t) (st : AppState) :
  in_sync (setLocations l (updateStoredLocations l st)).
Proof. unfold_handlers. simpl. apply lookup_insert_eq. Qed.

Lemma in_sync_store_then_set (l : list Location.t) (st : AppState) :
  in_sync (updateStoredLocations l (setLocations l st)).
Proof. unfold_handlers. simpl. apply lookup_insert_eq. Qed.

Lemma in_sync_selection (st : AppState) (e : option Location.t)
    (country : option string) (coords : option LatLngTuple) :
  in_sync st ->
  in_sync (setEditingLocation e (setSelectedCountry country (setSelectedCoords coords st))).
Proof. unfold_handlers. simpl. auto. Qed.

(** Writing the serialization that is already stored changes nothing. *)
Lemma updateStoredLocations_in_sync (st : AppState) :
  in_sync st -> localStorage (updateStoredLocations (locations st) st) = localStorage st.
Proof. unfold_handlers. simpl. intros Hsync. apply insert_id. exact Hsync. Qed.

Lemma handleSaveLocation_in_sync (now : string) (formData : FormData.t) (st : AppState) :
  selection st <> None -> in_sync (handleSaveLocation now formData st).
Proof.
  unfold handleSaveLocation. destruct (selection st) as [[coords country]|]; [|congruence].
  intros _. apply in_sync_selection.
  destruct (editingLocation st); apply in_sync_set_then_store.
Qed.

Lemma handleDeleteLocation_in_sync (id : string) (st : AppState) :
  in_sync (handleDeleteLocation id st).
Proof. unfold handleDeleteLocation. apply in_sync_set_then_store. Qed.

Lemma handleReorderLocations_in_sync (oldIndex newIndex : Z) (st st' : AppState) :
  handleReorderLocations oldIndex newIndex st = Some st' -> in_sync st'.
Proof.
  unfold handleReorderLocations.
  destruct (splice oldIndex 1 [] (locations st)) as [[|x removed] items]; [discriminate|].
  destruct (splice newIndex 0 [x] items) as [r items'].
  intros [= <-]. apply in_sync_set_then_store.
Qed.

Lemma handleReorderLocations_defined (oldIndex newIndex : Z) (st : AppState) :
  mutates st (ReorderLocations oldIndex newIndex) = true ->
  exists st', handleReorderLocations oldIndex newIndex st = Some st'.
Proof.
  unfold mutates, handleReorderLocations.
  destruct (splice oldIndex 1 [] (locations st)) as [[|x removed] items]; simpl;
    [discriminate|].
  destruct (splice newIndex 0 [x] items) as [r items']. eauto.
Qed.

Lemma fetchArtifactData_remote (text : string) (d : JSValue) (l : list Location.t)
    (st : AppState) :
  JSON_parse text = Some d -> validateLocationsData d = Some l ->
  fetchArtifactData (Some text) st = updateStoredLocations l (setLocations l st).
Proof. intros Hp Hv. unfold fetchArtifactData. rewrite Hp, Hv. reflexivity. Qed.

(** A handler that does not reach [setLocations] leaves the list and
    the store as they were. *)
Lemma non_mutating_frame (st st' : AppState) (a : Action) :
  mutates st a = false -> step st a = Some st' ->
  locations st' = locations st /\ localStorage st' = localStorage st.
Proof.
  destruct a; cbn [mutates step]; try discriminate.
  - unfold handleSaveLocation. destruct (selection st); [discriminate|].
    intros _ [= <-]. auto.
  - unfold handleReorderLocations.
    destruct (splice oldIndex 1 [] (locations st)) as [[|x removed] items]; simpl;
      intros; discriminate.
  - unfold handleImport. destruct confirmed; simpl.
    + destruct (JSON_parse text) as [d|]; [|intros _ [= <-]; auto].
      destruct (validateLocationsData d); [discriminate|intros _ [= <-]; auto].
    + intros _ [= <-]. auto.
  - destruct confirmed; [discriminate|]. intros _ [= <-]. auto.
  - intros _ [= <-]. auto.
  - intros _ [= <-]. auto.
  - intros _ [= <-]. unfold handleMapClick.
    destruct response as [country|]; [destruct (negb (String.eqb country ""))|];
      simpl; destruct (editingLocation st); auto.
Qed.

Lemma persistence_step (st : AppState) :
  (forall a : Action,
      mutates st a = true ->
      exists st', step st a = Some st' /\ in_sync st') /\
  (forall (text : string) (d : JSValue) (l : list Location.t),
      JSON_parse text = Some d ->
      validateLocationsData d = Some l ->
      locations (fetchArtifactData (Some text) st) = l /\
      in_sync (fetchArtifactData (Some text) st)).
Proof.
  split.
  - intros a Hm. destruct a; cbn [mutates step] in *; try discriminate.
    + eexists. split; [reflexivity|]. apply in_sync_set_then_store.
    + eexists. split; [reflexivity|]. apply handleSaveLocation_in_sync.
      destruct (selection st); [discriminate|discriminate].
    + eexists. split; [reflexivity|]. apply handleDeleteLocation_in_sync.
    + destruct (handleReorderLocations_defined oldIndex newIndex st Hm) as [st' Hst'].
      exists st'. split; [assumption|].
      eapply handleReorderLocations_in_sync; eassumption.
    + eexists. split; [reflexivity|]. unfold handleImport.
      apply andb_true_iff in Hm as [-> Hm]. simpl.
      destruct (JSON_parse text) as [d|]; [|discriminate].
      destruct (validateLocationsData d); [|discriminate].
      apply in_sync_store_then_set.
    + eexists. split; [reflexivity|]. rewrite Hm. simpl.
      apply in_sync_store_then_set.
  - intros text d l Hp Hv. rewrite (fetchArtifactData_remote text d l st Hp Hv).
    split; [reflexivity|]. apply in_sync_store_then_set.
Qed.

(** C3. After every operation that changes the list (insert, update or
    create through the form, delete, reorder, import, clear) the value
    stored under [locations] is the serialization of the list in memory;
    so it is after a remote load replaces the list. *)
Theorem persistence_coupling (st : AppState) :
  (forall a : Action,
      mutates st a = true ->
      exists st', step st a = Some st' /\ in_sync st') /\
  (forall (text : string) (d : JSValue) (l : list Location.t),
      JSON_parse text = Some d ->
      validateLocationsData d = Some l ->
      locations (fetchArtifactData (Some text) st) = l /\
      in_sync (fetchArtifactData (Some text) st)).
Proof. exact (persistence_step st). Qed.

(** Over the handlers of [App] (with the records left as they are in
    between), a store in step with the list stays in step. *)
Lemma in_sync_run (actions : list Action) (st st' : AppState) :
  in_sync st -> run st actions = Some st' -> in_sync st'.
Proof.
  revert st. induction actions as [|a rest IH]; simpl; intros st Hsync Hrun.
  - injection Hrun as <-. exact Hsync.
  - destruct (step st a) as [st1|] eqn:Hstep; [|discriminate].
    apply (IH st1); [|exact Hrun].
    destruct (mutates st a) eqn:Hm.
    + destruct (proj1 (persistence_step st) a Hm) as (st2 & Hstep2 & Hsync2).
      congruence.
    + destruct (non_mutating_frame st st1 a Hm Hstep) as [Hl Hs].
      unfold in_sync, getItem in *. rewrite Hl, Hs. exact Hsync.
Qed.

End Store.

Lemma persistence_coupling_witness :
  exists st',
    @step RefJSON_builtin (Sample.state [Sample.petra; Sample.amman])
      (ReorderLocations 0 1) = Some st' /\
    @in_sync RefJSON_builtin st'.
Proof.
  apply (proj1 (@persistence_coupling RefJSON_builtin
                  (Sample.state [Sample.petra; Sample.amman]))).
  reflexivity.
Defined.

(** ** Delete *)

Lemma filter_absent (id : string) (l : list Location.t) :
  ~ In id (map Location.id l) ->
  List.filter (fun loc => negb (String.eqb (Location.id loc) id)) l = l.
Proof.
  intros Hnotin. apply filter_all, forallb_forall. intros loc Hloc.
  destruct (String.eqb_spec (Location.id loc) id) as [Heq|]; [|reflexivity].
  exfalso. apply Hnotin. rewrite <- Heq. apply in_map. assumption.
Qed.

Lemma filter_unique_is_delete_first (id : string) (l : list Location.t) :
  NoDup (map Location.id l) ->
  List.filter (fun loc => negb (String.eqb (Location.id loc) id)) l
  = spec_delete_first id l.
Proof.
  induction l as [|loc l IH]; simpl; [reflexivity|].
  intros Hnd. apply NoDup_cons in Hnd as [Hnotin Hnd].
  destruct (String.eqb_spec (Location.id loc) id) as [Heq|Hne]; simpl.
  - apply filter_absent. rewrite <- Heq. rewrite list_elem_of_In in Hnotin. exact Hnotin.
  - rewrite IH by assumption. reflexivity.
Qed.

Section Delete.
Context `{JSON : JSONBuiltin}.

Lemma handleDeleteLocation_locations (id : string) (st : AppState) :
  locations (handleDeleteLocation id st)
  = List.filter (fun loc => negb (String.eqb (Location.id loc) id)) (locations st).
Proof.
  unfold handleDeleteLocation.
  destruct (editingLocation st) as [e|]; [destruct (String.eqb (Location.id e) id)|];
    reflexivity.
Qed.

Lemma handleDeleteLocation_stored (id : string) (st : AppState) :
  localStorage (handleDeleteLocation id st)
  = <["locations" := JSON_stringify (Locations_to_js (locations (handleDeleteLocation id st)))]>
      (localStorage st).
Proof.
  unfold handleDeleteLocation.
  destruct (editingLocation st) as [e|]; [destruct (String.eqb (Location.id e) id)|];
    reflexivity.
Qed.

(** C10. Deleting an id that no record carries leaves the list as it
    was, and rewrites the stored value to the serialization of that same
    list: when the store was in step with the list, the store is left as
    it was too. *)
Theorem delete_absent_is_noop (id : string) (st : AppState) :
  ~ In id (ids st) ->
  locations (handleDeleteLocation id st) = locations st /\
  getItem "locations" (handleDeleteLocation id st)
  = Some (JSON_stringify (Locations_to_js (locations st))) /\
  (in_sync st -> localStorage (handleDeleteLocation id st) = localStorage st).
Proof.
  intros Hnotin.
  assert (Hl : locations (handleDeleteLocation id st) = locations st).
  { rewrite handleDeleteLocation_locations. apply filter_absent. exact Hnotin. }
  split; [exact Hl|]. unfold getItem. rewrite handleDeleteLocation_stored, Hl.
  split; [apply lookup_insert_eq|].
  intros Hsync. apply insert_id. exact Hsync.
Qed.

(** C7. [handleDeleteLocation id] removes the first record whose id is
    [id] and keeps the records before it; with ids unique, which the
    collection is expected to have, that record is the only one removed.
    When the record open for editing has this id, [editingLocation],
    [selectedCoords] and [selectedCountry] are cleared in the same call;
    otherwise they are left alone. *)
Theorem delete_removes_record_and_clears_editing (id : string) (st : AppState) :
  (NoDup (ids st) ->
   locations (handleDeleteLocation id st) = spec_delete_first id (locations st)) /\
  (forall (before after : list Location.t) (first : Location.t),
      locations st = before ++ first :: after ->
      Location.id first = id ->
      ~ In id (map Location.id before) ->
      locations (handleDeleteLocation id st)
      = before ++ List.filter (fun loc => negb (String.eqb (Location.id loc) id)) after) /\
  (forall e, editingLocation st = Some e -> Location.id e = id ->
     editingLocation (handleDeleteLocation id st) = None /\
     selectedCoords (handleDeleteLocation id st) = None /\
     selectedCountry (handleDeleteLocation id st) = None) /\
  ((forall e, editingLocation st = Some e -> Location.id e <> id) ->
     editingLocation (handleDeleteLocation id st) = editingLocation st /\
     selectedCoords (handleDeleteLocation id st) = selectedCoords st /\
     selectedCountry (handleDeleteLocation id st) = selectedCountry st).
Proof.
  split; [|split; [|split]].
  - intros Hnd. rewrite handleDeleteLocation_locations.
    apply filter_unique_is_delete_first. exact Hnd.
  - intros before after first Hl Hid Hbefore.
    rewrite handleDeleteLocation_locations, Hl, List.filter_app. simpl.
    rewrite (filter_absent id before Hbefore).
    destruct (String.eqb_spec (Location.id first) id); [reflexivity|contradiction].
  - intros e He Hid. unfold handleDeleteLocation. rewrite He.
    destruct (String.eqb_spec (Location.id e) id); [|contradiction].
    repeat split.
  - intros Hother. unfold handleDeleteLocation.
    destruct (editingLocation st) as [e|] eqn:He; [|simpl; rewrite He; repeat split].
    destruct (String.eqb_spec (Location.id e) id) as [Heq|];
      [|simpl; rewrite He; repeat split].
    exfalso. exact (Hother e eq_refl Heq).
Qed.

End Delete.

Lemma delete_absent_is_noop_witness :
  locations (@handleDeleteLocation RefJSON_builtin "no-such-id"
               (Sample.state [Sample.petra; Sample.amman]))
  = [Sample.petra; Sample.amman].
Proof.
  apply (@delete_absent_is_noop RefJSON_builtin "no-such-id"
           (Sample.state [Sample.petra; Sample.amman])).
  vm_compute. intros [H|[H|[]]]; discriminate H.
Defined.

Lemma delete_removes_record_and_clears_editing_witness :
  let st := @handleStartEdit Sample.amman (Sample.state [Sample.petra; Sample.amman; Sample.jerash]) in
  let st' := @handleDeleteLocation RefJSON_builtin (Location.id Sample.amman) st in
  locations st' = [Sample.petra; Sample.jerash] /\
  editingLocation st' = None /\ selectedCoords st' = None /\ selectedCountry st' = None.
Proof.
  intros st st'.
  destruct (@delete_removes_record_and_clears_editing RefJSON_builtin
              (Location.id Sample.amman) st) as (Hl & _ & Hedit & _).
  split; [|apply (Hedit Sample.amman); reflexivity].
  apply Hl. vm_compute.
  repeat constructor; rewrite ?list_elem_of_In; simpl; intuition discriminate.
Defined.

(** Without the uniqueness of ids the filter removes every record that
    carries the id, not the first one alone. *)
Example delete_with_duplicate_ids :
  locations (@handleDeleteLocation RefJSON_builtin (Location.id Sample.petra)
               (Sample.state [Sample.petra; Sample.amman; Sample.petra_twin]))
  = [Sample.amman] /\
  spec_delete_first (Location.id Sample.petra)
    [Sample.petra; Sample.amman; Sample.petra_twin]
  = [Sample.amman; Sample.petra_twin].
Proof. split; reflexivity. Qed.

(** ** Splice *)

Lemma splice_start_le (start : Z) (len : nat) : splice_start start len <= len.
Proof. unfold splice_start. destruct (start <? 0)%Z eqn:Hneg; lia. Qed.

Lemma splice_start_nat (i len : nat) : splice_start (Z.of_nat i) len = Nat.min i len.
Proof.
  unfold splice_start. destruct (Z.of_nat i <? 0)%Z eqn:Hneg; lia.
Qed.

(** Splicing one element out: the element at the start position, and the
    list without it. *)
Lemma splice_remove_one {T : Type} (start : Z) (l : list T) (x : T) (removed items : list T) :
  splice start 1 [] l = (x :: removed, items) ->
  removed = [] /\
  l !! splice_start start (length l) = Some x /\
  items = delete (splice_start start (length l)) l.
Proof.
  unfold splice. pose proof (splice_start_le start (length l)) as Hle.
  set (s := splice_start start (length l)) in *.
  intros [= Hremoved Hitems].
  destruct (decide (s = length l)) as [Heq|Hne].
  - rewrite Heq, drop_all, take_nil in Hremoved. discriminate.
  - replace (Z.to_nat ((1 `max` 0) `min` Z.of_nat (length l - s))) with 1 in * by lia.
    destruct (drop s l) as [|y rest] eqn:Hdrop.
    + simpl in Hremoved. discriminate.
    + simpl in Hremoved. injection Hremoved as -> <-.
      assert (Hx : l !! s = Some x).
      { rewrite <- (Nat.add_0_r s), <- lookup_drop, Hdrop. reflexivity. }
      repeat split; [exact Hx|].
      rewrite <- Hitems, Nat.add_1_r. symmetry. apply delete_take_drop.
Qed.

Lemma splice_remove_none {T : Type} (start : Z) (l : list T) (items : list T) :
  splice start 1 [] l = ([], items) -> splice_start start (length l) = length l.
Proof.
  unfold splice. pose proof (splice_start_le start (length l)) as Hle.
  set (s := splice_start start (length l)) in *.
  intros [= Hremoved _].
  destruct (decide (s = length l)) as [Heq|Hne]; [exact Heq|].
  replace (Z.to_nat ((1 `max` 0) `min` Z.of_nat (length l - s))) with 1 in * by lia.
  destruct (drop s l) as [|y rest] eqn:Hdrop; [|simpl in Hremoved; discriminate].
  apply (f_equal length) in Hdrop. rewrite length_drop in Hdrop. simpl in Hdrop. lia.
Qed.

(** Splicing one element in, removing none. *)
Lemma splice_insert_one {T : Type} (start : Z) (x : T) (items : list T) :
  splice start 0 [x] items
  = ([], take (splice_start start (length items)) items
         ++ x :: drop (splice_start start (length items)) items).
Proof.
  unfold splice. set (s := splice_start start (length items)).
  replace (Z.to_nat ((0 `max` 0) `min` Z.of_nat (length items - s))) with 0 by lia.
  rewrite Nat.add_0_r. reflexivity.
Qed.

(** ** Reorder *)

Lemma lookup_map {A B : Type} (f : A -> B) (l : list A) (i : nat) :
  map f l !! i = f <$> l !! i.
Proof.
  revert i. induction l as [|x l IH]; intros [|i]; simpl; auto.
Qed.

Section Reorder.
Context `{JSON : JSONBuiltin}.

(** What [handleReorderLocations] computes, for any two integers: the
    item at the start position of the first splice goes to the start
    position of the second. *)
Lemma handleReorderLocations_spec (oldIndex newIndex : Z) (st st' : AppState) :
  handleReorderLocations oldIndex newIndex st = Some st' ->
  exists x,
    let i := splice_start oldIndex (length (locations st)) in
    let items := delete i (locations st) in
    let j := splice_start newIndex (length items) in
    locations st !! i = Some x /\
    locations st' = take j items ++ x :: drop j items.
Proof.
  unfold handleReorderLocations.
  destruct (splice oldIndex 1 [] (locations st)) as [[|x removed] items] eqn:Hout;
    [discriminate|].
  apply splice_remove_one in Hout as (-> & Hx & ->).
  rewrite splice_insert_one. intros [= <-]. exists x. simpl. auto.
Qed.

Lemma handleReorderLocations_Permutation (oldIndex newIndex : Z) (st st' : AppState) :
  handleReorderLocations oldIndex newIndex st = Some st' ->
  locations st' ≡ₚ locations st.
Proof.
  intros (x & Hx & ->)%handleReorderLocations_spec.
  rewrite <- Permutation_middle, take_drop.
  symmetry. apply delete_Permutation. exact Hx.
Qed.

(** Indices within the list: the item at [oldIndex] ends at [newIndex],
    and the others keep their order. *)
Lemma handleReorderLocations_in_range (st : AppState) (oldIndex newIndex : nat) :
  oldIndex < length (locations st) ->
  newIndex < length (locations st) ->
  exists x st',
    locations st !! oldIndex = Some x /\
    handleReorderLocations (Z.of_nat oldIndex) (Z.of_nat newIndex) st = Some st' /\
    locations st'
    = take newIndex (delete oldIndex (locations st))
      ++ x :: drop newIndex (delete oldIndex (locations st)) /\
    locations st' !! newIndex = Some x /\
    delete newIndex (locations st') = delete oldIndex (locations st) /\
    locations st' ≡ₚ locations st.
Proof.
  intros Hold Hnew.
  destruct (handleReorderLocations (Z.of_nat oldIndex) (Z.of_nat newIndex) st)
    as [st'|] eqn:Hre.
  - pose proof (handleReorderLocations_Permutation _ _ _ _ Hre) as Hperm.
    apply handleReorderLocations_spec in Hre as (x & Hx & Hl). cbv zeta in Hx, Hl.
    rewrite (splice_start_nat oldIndex), (Nat.min_l oldIndex) in Hx, Hl by lia.
    assert (Hlen : length (delete oldIndex (locations st)) = length (locations st) - 1).
    { apply length_delete. eauto. }
    rewrite (splice_start_nat newIndex), (Nat.min_l newIndex) in Hl by lia.
    assert (Htake : length (take newIndex (delete oldIndex (locations st))) = newIndex).
    { rewrite length_take. lia. }
    exists x, st'. repeat split; auto.
    + rewrite Hl. rewrite <- Htake at 1. apply list_lookup_middle. reflexivity.
    + rewrite Hl. rewrite <- Htake at 1. rewrite delete_middle. apply take_drop.
  - exfalso. unfold handleReorderLocations in Hre.
    destruct (splice (Z.of_nat oldIndex) 1 [] (locations st))
      as [[|x removed] items] eqn:Hout.
    + apply splice_remove_none in Hout. rewrite splice_start_nat in Hout. lia.
    + destruct (splice (Z.of_nat newIndex) 0 [x] items). discriminate.
Qed.

(** C4. [handleReorderLocations] takes the item at [oldIndex] out and puts
    it back at [newIndex] of the list that remains; it does not swap two
    items.  On [[A,B,C,D]], moving 0 to 2 gives [[B,C,A,D]]; for any list
    and indices within it, the result is the remaining list with the item
    spliced in at [newIndex]: the item is then at [newIndex], the other
    items keep their order, and the result is a permutation. *)
Theorem reorder_is_splice_out_splice_in :
  (forall (A B C D : Location.t) (st : AppState),
      locations st = [A; B; C; D] ->
      locations <$> handleReorderLocations 0 2 st = Some [B; C; A; D]) /\
  (forall (st : AppState) (oldIndex newIndex : nat),
      oldIndex < length (locations st) ->
      newIndex < length (locations st) ->
      exists x st',
        locations st !! oldIndex = Some x /\
        handleReorderLocations (Z.of_nat oldIndex) (Z.of_nat newIndex) st = Some st' /\
        locations st'
        = take newIndex (delete oldIndex (locations st))
          ++ x :: drop newIndex (delete oldIndex (locations st)) /\
        locations st' !! newIndex = Some x /\
        delete newIndex (locations st') = delete oldIndex (locations st) /\
        locations st' ≡ₚ locations st).
Proof.
  split.
  - intros A B C D st Hst. unfold handleReorderLocations. rewrite Hst. reflexivity.
  - exact handleReorderLocations_in_range.
Qed.

(** [findIndex] of an id that is in the list: the first position that
    carries it. *)
Lemma findIndex_present (id : string) (l : list Location.t) :
  In id (map Location.id l) ->
  exists (i : nat) (x : Location.t),
    findIndex id l = Z.of_nat i /\ l !! i = Some x /\ Location.id x = id /\
    i < length l.
Proof.
  intros Hin. unfold findIndex.
  destruct (list_find (fun loc => Location.id loc = id) l) as [[i x]|] eqn:Hfind.
  - apply list_find_Some in Hfind as (Hi & Hx & _).
    exists i, x. repeat split; auto. eapply lookup_lt_Some. exact Hi.
  - exfalso. apply list_find_None in Hfind.
    apply in_map_iff in Hin as (x & Hx & Hin).
    rewrite Forall_forall in Hfind. apply (Hfind x); [|exact Hx].
    rewrite list_elem_of_In. exact Hin.
Qed.

(** Dropping the item [active] on the item [over]: the record with id
    [active] moves to the position the record with id [over] had; the
    others keep their order; the store is rewritten. *)
Theorem drag_end_moves_active_to_over (active over : string) (st : AppState) :
  active <> over ->
  In active (ids st) ->
  In over (ids st) ->
  exists (i j : nat) (x : Location.t) (st' : AppState),
    findIndex active (locations st) = Z.of_nat i /\
    findIndex over (locations st) = Z.of_nat j /\
    handleDragEnd active (Some over) st = Some st' /\
    locations st !! i = Some x /\
    Location.id x = active /\
    locations st' !! j = Some x /\
    delete j (locations st') = delete i (locations st) /\
    in_sync st'.
Proof.
  intros Hne Hactive Hover.
  destruct (findIndex_present active (locations st) Hactive) as (i & x & Hi & Hx & Hid & Hlt).
  destruct (findIndex_present over (locations st) Hover) as (j & y & Hj & _ & _ & Hjlt).
  destruct (handleReorderLocations_in_range st i j Hlt Hjlt)
    as (x' & st' & Hx' & Hre & _ & Hat & Hrest & _).
  assert (x' = x) as -> by congruence.
  exists i, j, x, st'. unfold handleDragEnd.
  destruct (String.eqb_spec active over); [contradiction|]. simpl.
  rewrite Hi, Hj. repeat split; auto.
  eapply handleReorderLocations_in_sync. exact Hre.
Qed.

Lemma findIndex_range (id : string) (l : list Location.t) :
  (-1 <= findIndex id l < Z.of_nat (length l))%Z.
Proof.
  unfold findIndex.
  destruct (list_find (fun loc => Location.id loc = id) l) as [[i x]|] eqn:Hfind.
  - apply list_find_Some in Hfind as (Hi & _). apply lookup_lt_Some in Hi. lia.
  - lia.
Qed.

Lemma splice_start_below (start : Z) (len : nat) :
  0 < len -> (start < Z.of_nat len)%Z -> splice_start start len < len.
Proof.
  intros Hlen Hstart. unfold splice_start. destruct (start <? 0)%Z eqn:Hneg; lia.
Qed.

(** The one caller of [handleReorderLocations] reads both indices off the
    list with [findIndex]: on a list that is not empty the first splice
    always takes an item out. *)
Theorem drag_end_always_reorders (active : string) (over : option string) (st : AppState) :
  locations st <> [] ->
  exists st', handleDragEnd active over st = Some st' /\ locations st' ≡ₚ locations st.
Proof.
  intros Hne. unfold handleDragEnd.
  destruct over as [over|]; [|eauto].
  destruct (negb (String.eqb active over)); [|eauto].
  destruct (handleReorderLocations (findIndex active (locations st))
              (findIndex over (locations st)) st) as [st'|] eqn:Hre.
  - exists st'. split; [reflexivity|].
    eapply handleReorderLocations_Permutation. exact Hre.
  - exfalso. unfold handleReorderLocations in Hre.
    destruct (splice (findIndex active (locations st)) 1 [] (locations st))
      as [[|x removed] items] eqn:Hout.
    + apply splice_remove_none in Hout.
      pose proof (findIndex_range active (locations st)) as Hrange.
      assert (Hlen : 0 < length (locations st)).
      { destruct (locations st); [contradiction|simpl; lia]. }
      pose proof (splice_start_below _ _ Hlen (proj2 Hrange)). lia.
    + destruct (splice (findIndex over (locations st)) 0 [x] items). discriminate.
Qed.

End Reorder.

Lemma reorder_is_splice_out_splice_in_witness :
  locations <$> @handleReorderLocations RefJSON_builtin 0 2
                  (Sample.state [Sample.petra; Sample.amman; Sample.jerash; Sample.aqaba])
  = Some [Sample.amman; Sample.jerash; Sample.petra; Sample.aqaba].
Proof.
  apply (proj1 (@reorder_is_splice_out_splice_in RefJSON_builtin)). reflexivity.
Defined.

(** ** Update *)

Lemma map_replace_absent (editing merged : Location.t) (l : list Location.t) :
  ~ In (Location.id editing) (map Location.id l) ->
  map (fun loc => if String.eqb (Location.id loc) (Location.id editing)
                  then merged else loc) l = l.
Proof.
  induction l as [|loc l IH]; simpl; [reflexivity|].
  intros Hnotin.
  destruct (String.eqb_spec (Location.id loc) (Location.id editing)) as [Heq|Hne].
  - exfalso. apply Hnotin. left. exact Heq.
  - rewrite IH; [reflexivity|]. intros Hin. apply Hnotin. right. exact Hin.
Qed.

Lemma map_replace_ids (editing merged : Location.t) (l : list Location.t) :
  Location.id merged = Location.id editing ->
  map Location.id
    (map (fun loc => if String.eqb (Location.id loc) (Location.id editing)
                     then merged else loc) l)
  = map Location.id l.
Proof.
  intros Hid. induction l as [|loc l IH]; simpl; [reflexivity|].
  rewrite IH.
  destruct (String.eqb_spec (Location.id loc) (Location.id editing)) as [Heq|Hne];
    congruence.
Qed.

Section Update.
Context `{JSON : JSONBuiltin}.

Lemma selection_Some (st : AppState) (coords : LatLngTuple) (country : string) :
  selectedCoords st = Some coords -> selectedCountry st = Some country ->
  country <> "" -> selection st = Some (coords, country).
Proof.
  intros Hc Hk Hne. unfold selection. rewrite Hc, Hk.
  destruct (String.eqb_spec country ""); [contradiction|reflexivity].
Qed.

Lemma handleSaveLocation_update (now : string) (formData : FormData.t) (st : AppState)
    (editing : Location.t) (coords : LatLngTuple) (country : string) :
  editingLocation st = Some editing ->
  selection st = Some (coords, country) ->
  locations (handleSaveLocation now formData st)
  = map (fun loc => if String.eqb (Location.id loc) (Location.id editing)
                    then updatedLocation editing formData coords country else loc)
      (locations st).
Proof.
  intros He Hsel. unfold handleSaveLocation. rewrite Hsel, He. reflexivity.
Qed.

(** C8. Saving the form while [editing] is open replaces every record
    whose id is that of [editing] by one merged record and leaves the
    others alone.  The merged record keeps the id of [editing], takes its
    country and coordinates from the map selection and the other fields
    from the form (which carries no country or coordinates).  When no
    record has that id, the list is unchanged. *)
Theorem update_keeps_id_and_takes_selection (now : string) (formData : FormData.t)
    (st : AppState) (editing : Location.t) (coords : LatLngTuple) (country : string) :
  editingLocation st = Some editing ->
  selectedCoords st = Some coords ->
  selectedCountry st = Some country ->
  country <> "" ->
  exists merged : Location.t,
    Location.id merged = Location.id editing /\
    Location.country merged = country /\
    Location.coordinates merged = coords /\
    Location.title merged = FormData.title formData /\
    Location.description merged = FormData.description formData /\
    (forall (i : nat) (loc : Location.t),
        locations st !! i = Some loc ->
        locations (handleSaveLocation now formData st) !! i
        = Some (if String.eqb (Location.id loc) (Location.id editing) then merged else loc)) /\
    length (locations (handleSaveLocation now formData st)) = length (locations st) /\
    ids (handleSaveLocation now formData st) = ids st /\
    (~ In (Location.id editing) (ids st) ->
     locations (handleSaveLocation now formData st) = locations st).
Proof.
  intros He Hc Hk Hne.
  pose proof (selection_Some st coords country Hc Hk Hne) as Hsel.
  pose proof (handleSaveLocation_update now formData st editing coords country He Hsel)
    as Hl.
  exists (updatedLocation editing formData coords country).
  repeat split.
  - intros i loc Hi. rewrite Hl, lookup_map, Hi. reflexivity.
  - rewrite Hl. apply length_map.
  - unfold ids. rewrite Hl. apply map_replace_ids. reflexivity.
  - intros Hnotin. rewrite Hl. apply map_replace_absent. exact Hnotin.
Qed.

End Update.

Lemma update_keeps_id_and_takes_selection_witness :
  let st := handleMapClick (Finite (2961 # 100), Finite (3543 # 100)) (Some "Jordan")
              (handleStartEdit Sample.amman (Sample.state [Sample.petra; Sample.amman])) in
  exists merged : Location.t,
    Location.id merged = Location.id Sample.amman /\
    Location.country merged = "Jordan" /\
    Location.coordinates merged = (Finite (2961 # 100), Finite (3543 # 100)) /\
    locations (@handleSaveLocation RefJSON_builtin "2024-05-02T08:00:00.000Z" Sample.form st)
    = [Sample.petra; merged].
Proof.
  intros st.
  destruct (@update_keeps_id_and_takes_selection RefJSON_builtin
              "2024-05-02T08:00:00.000Z" Sample.form st Sample.amman
              (Finite (2961 # 100), Finite (3543 # 100)) "Jordan")
    as (merged & Hid & Hcountry & Hcoords & _ & _ & Hat & Hlen & _).
  - reflexivity.
  - reflexivity.
  - reflexivity.
  - discriminate.
  - exists merged. repeat split; try assumption.
    pose proof (Hat 0 Sample.petra eq_refl) as H0.
    pose proof (Hat 1 Sample.amman eq_refl) as H1.
    destruct (locations (@handleSaveLocation RefJSON_builtin
                "2024-05-02T08:00:00.000Z" Sample.form st)) as [|a [|b [|c rest]]];
      try discriminate.
    simpl in H0, H1. congruence.
Defined.

(** ** Unique ids *)

Lemma NoDup_ids_snoc (l : list Location.t) (loc : Location.t) :
  NoDup (map Location.id l) ->
  ~ In (Location.id loc) (map Location.id l) ->
  NoDup (map Location.id (l ++ [loc])).
Proof.
  intros Hnd Hfresh. rewrite map_app. simpl.
  apply NoDup_app. split; [exact Hnd|]. split.
  - intros x Hx Hx'. apply list_elem_of_singleton in Hx'. subst x.
    apply Hfresh. rewrite <- list_elem_of_In. exact Hx.
  - apply NoDup_singleton.
Qed.

Lemma NoDup_ids_filter (f : Location.t -> bool) (l : list Location.t) :
  NoDup (map Location.id l) -> NoDup (map Location.id (List.filter f l)).
Proof.
  induction l as [|loc l IH]; simpl; [auto|].
  intros Hnd. apply NoDup_cons in Hnd as [Hnotin Hnd].
  destruct (f loc); simpl; [|auto].
  apply NoDup_cons. split; [|auto].
  intros Hin. apply Hnotin. rewrite list_elem_of_In in *.
  apply in_map_iff in Hin as (x & Hx & Hin). apply filter_In in Hin as [Hin _].
  rewrite <- Hx. apply in_map. exact Hin.
Qed.

Section UniqueIds.
Context `{JSON : JSONBuiltin}.

Lemma ids_selection (st : AppState) (e : option Location.t)
    (country : option string) (coords : option LatLngTuple) :
  ids (setEditingLocation e (setSelectedCountry country (setSelectedCoords coords st)))
  = ids st.
Proof. reflexivity. Qed.

Lemma step_preserves_unique_ids (st : AppState) (a : Action) :
  NoDup (ids st) -> admissible st a ->
  exists st', step st a = Some st' /\ NoDup (ids st').
Proof.
  intros Hnd Hadm. destruct a; cbn [admissible step] in *; try contradiction.
  - eexists. split; [reflexivity|]. apply NoDup_ids_snoc; assumption.
  - eexists. split; [reflexivity|]. unfold handleSaveLocation.
    destruct (selection st) as [[coords country]|] eqn:Hsel; [|exact Hnd].
    rewrite ids_selection.
    destruct (editingLocation st) as [editing|] eqn:He.
    + unfold ids. simpl. rewrite map_replace_ids by reflexivity. exact Hnd.
    + apply NoDup_ids_snoc; [exact Hnd|]. apply Hadm; congruence.
  - eexists. split; [reflexivity|]. unfold ids.
    rewrite handleDeleteLocation_locations. apply NoDup_ids_filter. exact Hnd.
  - destruct (handleReorderLocations_defined oldIndex newIndex st Hadm) as [st' Hst'].
    exists st'. split; [exact Hst'|].
    apply handleReorderLocations_Permutation in Hst'.
    assert (Hperm : ids st' ≡ₚ ids st) by (apply Permutation_map; exact Hst').
    rewrite Hperm. exact Hnd.
  - eexists. split; [reflexivity|]. exact Hnd.
  - eexists. split; [reflexivity|]. exact Hnd.
  - eexists. split; [reflexivity|]. unfold handleMapClick.
    destruct response as [country|]; [destruct (negb (String.eqb country ""))|];
      simpl; destruct (editingLocation st); exact Hnd.
Qed.

(** C5. From a list whose ids are unique, every run of insert, save,
    delete and reorder in which each inserted or created record brings an
    id that is not in the list yet (the layer appends without checking)
    ends in a list whose ids are unique. *)
Theorem unique_ids_preserved (actions : list Action) (st : AppState) :
  NoDup (ids st) ->
  admissible_run st actions ->
  exists st', run st actions = Some st' /\ NoDup (ids st').
Proof.
  revert st. induction actions as [|a rest IH]; intros st Hnd Hrun; simpl in *.
  - exists st. auto.
  - destruct Hrun as [Hadm Hrest].
    destruct (step_preserves_unique_ids st a Hnd Hadm) as (st1 & Hstep & Hnd1).
    rewrite Hstep. apply IH; auto.
Qed.

End UniqueIds.

Lemma unique_ids_preserved_witness :
  exists st',
    @run RefJSON_builtin (Sample.state [Sample.petra; Sample.amman])
      [MapClick (Finite (2961 # 100), Finite (3543 # 100)) (Some "Jordan");
       SaveLocation "2024-05-02T08:00:00.000Z" Sample.form;
       StartEdit Sample.amman;
       SaveLocation "2024-05-02T08:01:00.000Z" Sample.form;
       ReorderLocations 0 2;
       DeleteLocation (Location.id Sample.petra);
       Insert Sample.jerash] = Some st' /\
    NoDup (ids st').
Proof.
  apply (@unique_ids_preserved RefJSON_builtin).
  - vm_compute. repeat constructor; rewrite ?list_elem_of_In; simpl; intuition discriminate.
  - repeat lazymatch goal with
           | |- admissible_run _ (_ :: _) =>
               split;
               [ vm_compute; first [ exact I | reflexivity | intuition discriminate ]
               | let st' := fresh "st" in
                 let H := fresh "Hstep" in
                 intros st' H; vm_compute in H; injection H as <- ]
           | |- admissible_run _ [] => exact I
           end.
Defined.

(** Appending a record whose id is taken breaks the invariant: the
    freshness of the id is the caller's part. *)
Example insert_taken_id_breaks_uniqueness :
  ~ NoDup (ids (@insert RefJSON_builtin Sample.petra_twin (Sample.state [Sample.petra]))).
Proof.
  vm_compute. intros Hnd. apply NoDup_cons in Hnd as [Hnotin _].
  apply Hnotin. left.
Qed.

(** Two creates that read the same timestamp give two records with one
    id. *)
Example create_twice_in_one_millisecond :
  let click := MapClick (Finite (2961 # 100), Finite (3543 # 100)) (Some "Jordan") in
  let save := SaveLocation "2024-05-02T08:00:00.000Z" Sample.form in
  ids <$> @run RefJSON_builtin (Sample.state []) [click; save; click; save]
  = Some ["2024-05-02T08:00:00.000Z"; "2024-05-02T08:00:00.000Z"].
Proof. reflexivity. Qed.

(** The validator does not compare ids: an import may bring two records
    with one id. *)
Example import_may_bring_duplicate_ids :
  validateLocationsData (Locations_to_js [Sample.petra; Sample.petra_twin])
  = Some [Sample.petra; Sample.petra_twin] /\
  Location.id Sample.petra = Location.id Sample.petra_twin.
Proof. split; reflexivity. Qed.

(** ** Round trip through JSON *)

Lemma JSON_image_strings (opts : list string) :
  map JSON_image (map JStr opts) = map JStr opts.
Proof. induction opts as [|o opts IH]; simpl; congruence. Qed.

Lemma JSON_image_Question (q : Question.t) :
  JSON_image (Question_to_js q) = Question_to_js q.
Proof.
  destruct q as [qid qtext qtype [opts|] qanswer]; cbn;
    rewrite ?JSON_image_strings; reflexivity.
Qed.

Lemma JSON_image_Questions (qs : list Question.t) :
  map JSON_image (map Question_to_js qs) = map Question_to_js qs.
Proof.
  induction qs as [|q qs IH]; [reflexivity|].
  cbn [map]. rewrite JSON_image_Question, IH. reflexivity.
Qed.

(** The object of a record with finite coordinates is its own JSON
    image: nothing in it is [undefined] or a number that is not finite. *)
Lemma JSON_image_Location (loc : Location.t) :
  finite_coordinates loc -> JSON_image (Location_to_js loc) = Location_to_js loc.
Proof.
  destruct loc as [lid ltitle lcountry ldesc limage [v|] [a|] [lat lng] [qs|] [b|]];
    intros [Hlat Hlng]; cbn in Hlat, Hlng; cbn;
    rewrite Hlat, Hlng, ?JSON_image_Questions; reflexivity.
Qed.

Lemma JSON_image_Locations (l : list Location.t) :
  Forall finite_coordinates l ->
  JSON_image (Locations_to_js l) = Locations_to_js l.
Proof.
  unfold Locations_to_js. intros Hall. cbn [JSON_image]. f_equal.
  induction Hall as [|loc l Hloc Hall IH]; [reflexivity|].
  cbn [map]. rewrite JSON_image_Location, IH by assumption. reflexivity.
Qed.

(** A coordinate that is not finite comes back as [null], and the guard
    turns the record down. *)
Lemma isLocation_image_not_finite (loc : Location.t) :
  ~ finite_coordinates loc -> isLocation (JSON_image (Location_to_js loc)) = false.
Proof.
  unfold finite_coordinates.
  destruct loc as [lid ltitle lcountry ldesc limage [v|] [a|] [lat lng] [qs|] [b|]];
    cbn [Location.coordinates fst snd]; intros Hnot;
    destruct lat, lng; try (exfalso; apply Hnot; split; reflexivity); reflexivity.
Qed.

Section RoundTrip.
Context `{JSON : JSONBuiltin}.

Lemma validate_parse_serialize_image (l : list Location.t) :
  JSON_roundtrips (Locations_to_js l) ->
  validate_parse_serialize l = validateLocationsData (JSON_image (Locations_to_js l)).
Proof.
  unfold validate_parse_serialize, JSON_roundtrips. intros ->. reflexivity.
Qed.

Lemma validate_parse_serialize_not_finite (l : list Location.t) :
  JSON_roundtrips (Locations_to_js l) ->
  Exists (fun loc => ~ finite_coordinates loc) l ->
  validate_parse_serialize l = None.
Proof.
  intros Hrt Hex. rewrite validate_parse_serialize_image by exact Hrt.
  apply Exists_exists in Hex as (loc & Hin & Hnot).
  unfold Locations_to_js. cbn [JSON_image].
  apply (validateLocationsData_reject _ (JSON_image (Location_to_js loc))).
  - apply in_map, in_map. rewrite <- list_elem_of_In. exact Hin.
  - apply isLocation_image_not_finite. exact Hnot.
Qed.

(** C6, amended.  For a list of locations whose coordinates are finite
    numbers, serializing the list, parsing the text and validating the
    result gives the list back, element for element and in order.  (The
    platform is taken at its word for this list: parsing what it
    stringified gives the JSON image.) *)
Theorem validate_parse_serialize_roundtrip (l : list Location.t) :
  Forall finite_coordinates l ->
  JSON_roundtrips (Locations_to_js l) ->
  validate_parse_serialize l = Some l.
Proof.
  intros Hfinite Hrt.
  rewrite validate_parse_serialize_image by exact Hrt.
  rewrite JSON_image_Locations by exact Hfinite.
  apply validateLocationsData_to_js.
Qed.

End RoundTrip.

Lemma validate_parse_serialize_roundtrip_witness :
  @validate_parse_serialize RefJSON_builtin [Sample.petra; Sample.amman; Sample.jerash]
  = Some [Sample.petra; Sample.amman; Sample.jerash].
Proof.
  apply (@validate_parse_serialize_roundtrip RefJSON_builtin).
  - repeat constructor.
  - vm_compute. reflexivity.
Defined.

(** C6 as stated fails: a location whose latitude is [Infinity] has the
    type [Location] and passes the guard, the platform serializes the
    latitude as [null], and the text is then rejected as a whole. *)
Lemma roundtrip_fails_on_infinite_coordinate :
  validateLocationsData (Locations_to_js [Sample.petra; Sample.off_the_map])
  = Some [Sample.petra; Sample.off_the_map] /\
  @JSON_roundtrips RefJSON_builtin (Locations_to_js [Sample.petra; Sample.off_the_map]) /\
  @validate_parse_serialize RefJSON_builtin [Sample.petra; Sample.off_the_map] = None /\
  ~ (forall (JSON : JSONBuiltin) (l : list Location.t),
        JSON_roundtrips (Locations_to_js l) ->
        validate_parse_serialize l = Some l).
Proof.
  assert (Hrt : @JSON_roundtrips RefJSON_builtin
                  (Locations_to_js [Sample.petra; Sample.off_the_map])).
  { vm_compute. reflexivity. }
  split; [apply validateLocationsData_to_js|].
  split; [exact Hrt|].
  split; [vm_compute; reflexivity|].
  intros Hclaim. specialize (Hclaim RefJSON_builtin _ Hrt).
  vm_compute in Hclaim. discriminate Hclaim.
Qed.

(** ** Further properties of the handlers *)

Section Further.
Context `{JSON : JSONBuiltin}.

(** Stored JSON that parses but fails validation: the list stays empty
    and the key is removed from the store. *)
Theorem startup_invalid_data_is_cleared (stored : gmap string string) (s : string)
    (d : JSValue) :
  stored !! "locations" = Some s ->
  s <> "" ->
  JSON_parse s = Some d ->
  validateLocationsData d = None ->
  locations (loadStoredLocations (initialState stored)) = [] /\
  localStorage (loadStoredLocations (initialState stored)) = delete "locations" stored.
Proof.
  intros Hs Hne Hp Hv. unfold loadStoredLocations, getItem. simpl.
  rewrite Hs. destruct (String.eqb_spec s ""); [contradiction|]. simpl.
  rewrite Hp, Hv. split; reflexivity.
Qed.

(** Stored JSON that parses and validates becomes the list in memory;
    the store is not written. *)
Theorem startup_valid_data_is_loaded (stored : gmap string string) (s : string)
    (d : JSValue) (l : list Location.t) :
  stored !! "locations" = Some s ->
  s <> "" ->
  JSON_parse s = Some d ->
  validateLocationsData d = Some l ->
  locations (loadStoredLocations (initialState stored)) = l /\
  localStorage (loadStoredLocations (initialState stored)) = stored.
Proof.
  intros Hs Hne Hp Hv. exact (loadStoredLocations_valid stored s d l Hs Hne Hp Hv).
Qed.

(** A remote answer that does not parse or does not validate is dropped,
    and the mount effect continues with the stored list. *)
Theorem remote_failure_falls_back (text : string) (st : AppState) :
  match JSON_parse text with
  | Some d => validateLocationsData d = None
  | None => True
  end ->
  fetchArtifactData (Some text) st = loadStoredLocations st /\
  fetchArtifactData None st = loadStoredLocations st.
Proof.
  intros Hbad. unfold fetchArtifactData. split; [|reflexivity].
  destruct (JSON_parse text) as [d|]; [rewrite Hbad|]; reflexivity.
Qed.

(** An import that is declined, is not JSON, or fails validation changes
    nothing: neither the list nor the store. *)
Theorem rejected_import_changes_nothing (text : string) (confirmed : bool) (st : AppState) :
  mutates st (Import text confirmed) = false ->
  handleImport text confirmed st = st.
Proof.
  unfold mutates, handleImport. destruct confirmed; simpl; [|reflexivity].
  destruct (JSON_parse text) as [d|]; [|reflexivity].
  destruct (validateLocationsData d); [discriminate|reflexivity].
Qed.

Lemma accepted_import_replaces_all_locations (text : string) (d : JSValue)
    (l : list Location.t) (st : AppState) :
  JSON_parse text = Some d ->
  validateLocationsData d = Some l ->
  locations (handleImport text true st) = l /\ in_sync (handleImport text true st).
Proof.
  intros Hp Hv. unfold handleImport. simpl. rewrite Hp, Hv.
  split; [reflexivity|]. apply in_sync_store_then_set.
Qed.

(** An accepted import replaces the list wholesale by the validated one. *)
Theorem accepted_import_replaces_all (text : string) (d : JSValue) (l : list Location.t)
    (st : AppState) :
  JSON_parse text = Some d ->
  validateLocationsData d = Some l ->
  locations (handleImport text true st) = l /\ in_sync (handleImport text true st).
Proof.
  intros Hp Hv. unfold handleImport. simpl. rewrite Hp, Hv.
  split; [reflexivity|]. apply in_sync_store_then_set.
Qed.

(** Without coordinates or without a country selected on the map the
    form is refused: the state is left as it was. *)
Theorem save_without_selection_is_refused (now : string) (formData : FormData.t)
    (st : AppState) :
  selectedCoords st = None \/ selectedCountry st = None \/ selectedCountry st = Some "" ->
  handleSaveLocation now formData st = st.
Proof.
  intros Hsel. unfold handleSaveLocation, selection.
  destruct (selectedCoords st) as [coords|]; [|reflexivity].
  destruct (selectedCountry st) as [country|]; [|reflexivity].
  destruct Hsel as [Hc|[Hk|Hk]]; try discriminate.
  injection Hk as ->. reflexivity.
Qed.

(** Saving the form with nothing open for editing appends exactly one
    record: its id is the timestamp, its country and coordinates are the
    selected ones, and the selection is cleared. *)
Theorem create_appends_one_record (now : string) (formData : FormData.t) (st : AppState)
    (coords : LatLngTuple) (country : string) :
  editingLocation st = None ->
  selectedCoords st = Some coords ->
  selectedCountry st = Some country ->
  country <> "" ->
  exists created : Location.t,
    locations (handleSaveLocation now formData st) = locations st ++ [created] /\
    Location.id created = now /\
    Location.country created = country /\
    Location.coordinates created = coords /\
    Location.title created = FormData.title formData /\
    selectedCoords (handleSaveLocation now formData st) = None /\
    selectedCountry (handleSaveLocation now formData st) = None.
Proof.
  intros He Hc Hk Hne.
  pose proof (selection_Some st coords country Hc Hk Hne) as Hsel.
  exists (newLocation now formData coords country).
  unfold handleSaveLocation. rewrite Hsel, He. repeat split.
Qed.

(** Whatever the two integers, a reorder that splices an item out only
    permutes the list. *)
Theorem reorder_permutes (oldIndex newIndex : Z) (st : AppState) :
  mutates st (ReorderLocations oldIndex newIndex) = true ->
  exists st',
    handleReorderLocations oldIndex newIndex st = Some st' /\
    locations st' ≡ₚ locations st /\
    length (locations st') = length (locations st).
Proof.
  intros Hm. destruct (handleReorderLocations_defined oldIndex newIndex st Hm) as [st' Hst'].
  exists st'. split; [exact Hst'|].
  apply handleReorderLocations_Permutation in Hst'.
  split; [exact Hst'|]. rewrite Hst'. reflexivity.
Qed.

(** Clearing, once confirmed, empties the list and stores the empty
    list. *)
Theorem clear_empties_list_and_store (st : AppState) :
  locations (handleClearAllLocations true st) = [] /\
  getItem "locations" (handleClearAllLocations true st)
  = Some (JSON_stringify (JArr [])) /\
  handleClearAllLocations false st = st.
Proof.
  repeat split. unfold handleClearAllLocations, updateStoredLocations, getItem. simpl.
  apply lookup_insert_eq.
Qed.

End Further.

(** A value that is not an array is invalid, and a list is returned only
    for an array all of whose elements pass the guard: the typed view of
    these elements, in order. *)
Theorem validate_returns_whole_input (data : JSValue) :
  (isArray data = false -> validateLocationsData data = None) /\
  (forall accepted : list Location.t,
      validateLocationsData data = Some accepted ->
      exists items : list JSValue,
        data = JArr items /\
        Forall (fun item => isLocation item = true) items /\
        accepted = map asLocation items).
Proof.
  split.
  - intros Harr. unfold validateLocationsData. rewrite Harr. reflexivity.
  - intros accepted Hv.
    apply validateLocationsData_Some in Hv as (items & -> & Hall & ->).
    exists items. repeat split.
    apply Forall_forall. intros item Hin.
    rewrite forallb_forall in Hall. apply Hall. rewrite <- list_elem_of_In. exact Hin.
Qed.

(** The loss in full: an import with the latitude [1e999] is accepted and
    stored, the stored text holds [null] for the latitude, and the next
    mount finds it invalid, removes it and starts from the empty list. *)
Example infinite_latitude_is_imported_then_lost :
  let imported := @handleImport RefJSON_builtin Sample.overflowing_import true
                    (Sample.state []) in
  let reloaded := @loadStoredLocations RefJSON_builtin
                    (initialState (localStorage imported)) in
  locations imported = [Sample.off_the_map] /\
  @in_sync RefJSON_builtin imported /\
  locations reloaded = [] /\
  getItem "locations" reloaded = None.
Proof. vm_compute. repeat split. Qed.

(** *** Instances on the sample data *)

Lemma startup_invalid_data_is_cleared_witness :
  let stored : gmap string string := {[ "locations" := "[1, 2]" ]} in
  locations (@loadStoredLocations RefJSON_builtin (initialState stored)) = [] /\
  localStorage (@loadStoredLocations RefJSON_builtin (initialState stored))
  = delete "locations" stored.
Proof.
  intros stored.
  apply (@startup_invalid_data_is_cleared RefJSON_builtin stored "[1, 2]"
           (JArr [JNum (Finite 1); JNum (Finite 2)])).
  - reflexivity.
  - discriminate.
  - vm_compute. reflexivity.
  - reflexivity.
Defined.

Lemma startup_valid_data_is_loaded_witness :
  let text := RefJSON.print_value (Locations_to_js [Sample.petra; Sample.amman]) in
  let stored : gmap string string := {[ "locations" := text ]} in
  locations (@loadStoredLocations RefJSON_builtin (initialState stored))
  = [Sample.petra; Sample.amman] /\
  localStorage (@loadStoredLocations RefJSON_builtin (initialState stored)) = stored.
Proof.
  intros text stored.
  apply (@startup_valid_data_is_loaded RefJSON_builtin stored text
           (Locations_to_js [Sample.petra; Sample.amman])).
  - apply lookup_singleton_eq.
  - vm_compute. discriminate.
  - vm_compute. reflexivity.
  - apply validateLocationsData_to_js.
Defined.

Lemma remote_failure_falls_back_witness :
  @fetchArtifactData RefJSON_builtin (Some Sample.corrupt) (Sample.state [])
  = @loadStoredLocations RefJSON_builtin (Sample.state []).
Proof.
  apply (@remote_failure_falls_back RefJSON_builtin Sample.corrupt (Sample.state [])).
  vm_compute. exact I.
Defined.

Lemma rejected_import_changes_nothing_witness :
  @handleImport RefJSON_builtin "[1, 2]" true (Sample.state [Sample.petra])
  = Sample.state [Sample.petra].
Proof.
  apply (@rejected_import_changes_nothing RefJSON_builtin). vm_compute. reflexivity.
Defined.

(** An import file with one record that lacks [coordinates] is rejected
    as a whole; the list in memory stays. *)
Example import_with_missing_coordinates :
  @handleImport RefJSON_builtin
    (RefJSON.print_value (JArr [Location_to_js Sample.petra; Sample.missing_coordinates]))
    true (Sample.state [Sample.jerash])
  = Sample.state [Sample.jerash].
Proof. vm_compute. reflexivity. Qed.

Lemma accepted_import_replaces_all_witness :
  locations (@handleImport RefJSON_builtin
               (RefJSON.print_value (Locations_to_js [Sample.amman; Sample.jerash]))
               true (Sample.state [Sample.petra]))
  = [Sample.amman; Sample.jerash].
Proof.
  apply (@accepted_import_replaces_all RefJSON_builtin _
           (Locations_to_js [Sample.amman; Sample.jerash])).
  - vm_compute. reflexivity.
  - apply validateLocationsData_to_js.
Defined.

Lemma save_without_selection_is_refused_witness :
  @handleSaveLocation RefJSON_builtin "2024-05-02T08:00:00.000Z" Sample.form
    (Sample.state [Sample.petra])
  = Sample.state [Sample.petra].
Proof.
  apply (@save_without_selection_is_refused RefJSON_builtin). left. reflexivity.
Defined.

Lemma create_appends_one_record_witness :
  let st := handleMapClick (Finite (2961 # 100), Finite (3543 # 100)) (Some "Jordan")
              (Sample.state [Sample.petra]) in
  exists created : Location.t,
    locations (@handleSaveLocation RefJSON_builtin "2024-05-02T08:00:00.000Z"
                 Sample.form st)
    = [Sample.petra; created] /\
    Location.id created = "2024-05-02T08:00:00.000Z" /\
    Location.country created = "Jordan".
Proof.
  intros st.
  destruct (@create_appends_one_record RefJSON_builtin "2024-05-02T08:00:00.000Z"
              Sample.form st (Finite (2961 # 100), Finite (3543 # 100)) "Jordan")
    as (created & Hl & Hid & Hcountry & _).
  - reflexivity.
  - reflexivity.
  - reflexivity.
  - discriminate.
  - exists created. repeat split; assumption.
Defined.

Lemma reorder_permutes_witness :
  exists st',
    @handleReorderLocations RefJSON_builtin (-1) 0
      (Sample.state [Sample.petra; Sample.amman; Sample.jerash]) = Some st' /\
    locations st' ≡ₚ [Sample.petra; Sample.amman; Sample.jerash] /\
    length (locations st') = 3.
Proof.
  apply (@reorder_permutes RefJSON_builtin (-1) 0
           (Sample.state [Sample.petra; Sample.amman; Sample.jerash])).
  reflexivity.
Defined.

(** A negative [oldIndex] counts from the end: [-1] moves the last item. *)
Example reorder_from_the_end :
  locations <$> @handleReorderLocations RefJSON_builtin (-1) 0
                  (Sample.state [Sample.petra; Sample.amman; Sample.jerash])
  = Some [Sample.jerash; Sample.petra; Sample.amman].
Proof. reflexivity. Qed.

(** An [oldIndex] at the end of the list splices nothing out: the source
    would put [undefined] into the list. *)
Example reorder_past_the_end :
  @handleReorderLocations RefJSON_builtin 3 0
    (Sample.state [Sample.petra; Sample.amman; Sample.jerash])
  = None.
Proof. reflexivity. Qed.

Lemma validate_returns_whole_input_witness :
  validateLocationsData (JObj []) = None /\
  exists items : list JSValue,
    Locations_to_js [Sample.petra; Sample.jerash] = JArr items /\
    Forall (fun item => isLocation item = true) items /\
    [Sample.petra; Sample.jerash] = map asLocation items.
Proof.
  split.
  - apply (proj1 (validate_returns_whole_input (JObj []))). reflexivity.
  - apply (proj2 (validate_returns_whole_input
                    (Locations_to_js [Sample.petra; Sample.jerash]))).
    apply validateLocationsData_to_js.
Defined.

Lemma drag_end_moves_active_to_over_witness :
  exists st' : AppState,
    @handleDragEnd RefJSON_builtin (Location.id Sample.jerash)
      (Some (Location.id Sample.petra))
      (Sample.state [Sample.petra; Sample.amman; Sample.jerash]) = Some st' /\
    locations st' !! 0 = Some Sample.jerash.
Proof.
  destruct (@drag_end_moves_active_to_over RefJSON_builtin
              (Location.id Sample.jerash) (Location.id Sample.petra)
              (Sample.state [Sample.petra; Sample.amman; Sample.jerash]))
    as (i & j & x & st' & Hi & Hj & Hdrag & Hx & _ & Hat & _).
  - discriminate.
  - simpl. right. right. left. reflexivity.
  - simpl. left. reflexivity.
  - exists st'. split; [exact Hdrag|].
    change (2%Z = Z.of_nat i) in Hi. change (0%Z = Z.of_nat j) in Hj.
    assert (i = 2) as -> by lia. assert (j = 0) as -> by lia.
    rewrite Hat. symmetry. exact Hx.
Defined.

Lemma drag_end_always_reorders_witness :
  exists st',
    @handleDragEnd RefJSON_builtin "no-such-id" (Some (Location.id Sample.petra))
      (Sample.state [Sample.petra; Sample.amman]) = Some st' /\
    locations st' ≡ₚ [Sample.petra; Sample.amman].
Proof.
  apply (@drag_end_always_reorders RefJSON_builtin). discriminate.
Defined.

(** * How the handlers compose *)

Lemma splice_back {T : Type} (l : list T) (i : nat) (x : T) :
  l !! i = Some x -> take i (delete i l) ++ x :: drop i (delete i l) = l.
Proof.
  intros Hx. pose proof (lookup_lt_Some _ _ _ Hx) as Hlt.
  rewrite delete_take_drop.
  rewrite take_app_length' by (rewrite length_take; lia).
  rewrite drop_app_length' by (rewrite length_take; lia).
  apply take_drop_middle. exact Hx.
Qed.

Section Composition.
Context `{JSON : JSONBuiltin}.

Lemma other_keys_untouched (key : string) (st : AppState) :
  key <> "locations" ->
  (forall (a : Action) (st' : AppState),
      step st a = Some st' -> getItem key st' = getItem key st) /\
  getItem key (loadStoredLocations st) = getItem key st /\
  (forall artifact_data : option string,
      getItem key (fetchArtifactData artifact_data st) = getItem key st).
Proof.
  intros Hkey.
  assert (Hne : "locations" <> key) by congruence.
  assert (Hload : getItem key (loadStoredLocations st) = getItem key st).
  { unfold loadStoredLocations.
    destruct (getItem "locations" st) as [s|]; [|reflexivity].
    destruct (negb (String.eqb s "")); [|reflexivity].
    destruct (JSON_parse s) as [d|]; [|reflexivity].
    destruct (validateLocationsData d); [reflexivity|].
    unfold getItem, removeItem. simpl. apply lookup_delete_ne. exact Hne. }
  split; [|split; [exact Hload|]].
  - intros a st' Hstep.
    destruct (mutates st a) eqn:Hm.
    + destruct a; cbn [mutates step] in *; try discriminate.
      * injection Hstep as <-. apply (lookup_insert_ne _ _ _ _ Hne).
      * injection Hstep as <-. unfold handleSaveLocation.
        destruct (selection st) as [[coords country]|]; [|reflexivity].
        destruct (editingLocation st); apply (lookup_insert_ne _ _ _ _ Hne).
      * injection Hstep as <-. unfold getItem.
        rewrite handleDeleteLocation_stored. apply lookup_insert_ne. exact Hne.
      * unfold handleReorderLocations in Hstep.
        destruct (splice oldIndex 1 [] (locations st)) as [[|x removed] items];
          [discriminate|].
        destruct (splice newIndex 0 [x] items) as [r items'].
        injection Hstep as <-. apply (lookup_insert_ne _ _ _ _ Hne).
      * injection Hstep as <-. unfold handleImport.
        destruct (negb confirmed); [reflexivity|].
        destruct (JSON_parse text) as [d|]; [|reflexivity].
        destruct (validateLocationsData d); [|reflexivity].
        apply (lookup_insert_ne _ _ _ _ Hne).
      * injection Hstep as <-. unfold handleClearAllLocations.
        destruct confirmed; [|reflexivity]. apply (lookup_insert_ne _ _ _ _ Hne).
    + destruct (non_mutating_frame st st' a Hm Hstep) as [_ Hs].
      unfold getItem. rewrite Hs. reflexivity.
  - intros artifact_data. unfold fetchArtifactData.
    destruct (match artifact_data with
              | Some text =>
                  match JSON_parse text with
                  | Some parsedData => validateLocationsData parsedData
                  | None => None
                  end
              | None => None
              end) as [l|]; [|exact Hload].
    apply (lookup_insert_ne _ _ _ _ Hne).
Qed.

(** No handler writes a key of the store other than [locations]; nor
    does either mount effect. *)
Theorem only_the_locations_key_is_written (key : string) (st : AppState) :
  key <> "locations" ->
  (forall (a : Action) (st' : AppState),
      step st a = Some st' -> getItem key st' = getItem key st) /\
  getItem key (loadStoredLocations st) = getItem key st /\
  (forall artifact_data : option string,
      getItem key (fetchArtifactData artifact_data st) = getItem key st).
Proof. exact (other_keys_untouched key st). Qed.

(** Moving an item from [i] to [j] and then from [j] back to [i] gives
    the list there was. *)
Theorem reorder_there_and_back (st : AppState) (i j : nat) :
  i < length (locations st) ->
  j < length (locations st) ->
  exists st1 st2 : AppState,
    handleReorderLocations (Z.of_nat i) (Z.of_nat j) st = Some st1 /\
    handleReorderLocations (Z.of_nat j) (Z.of_nat i) st1 = Some st2 /\
    locations st2 = locations st.
Proof.
  intros Hi Hj.
  destruct (handleReorderLocations_in_range st i j Hi Hj)
    as (x & st1 & Hx & Hre1 & _ & Hat1 & Hrest1 & Hperm1).
  assert (Hlen : length (locations st1) = length (locations st)) by (rewrite Hperm1; reflexivity).
  destruct (handleReorderLocations_in_range st1 j i) as (y & st2 & Hy & Hre2 & Hl2 & _);
    [lia|lia|].
  assert (y = x) as -> by congruence.
  exists st1, st2. split; [exact Hre1|]. split; [exact Hre2|].
  rewrite Hl2, Hrest1. apply splice_back. exact Hx.
Qed.

(** Deleting a record that has just been inserted under a fresh id gives
    the list there was. *)
Theorem insert_then_delete (newLocation : Location.t) (st : AppState) :
  ~ In (Location.id newLocation) (ids st) ->
  locations (handleDeleteLocation (Location.id newLocation) (insert newLocation st))
  = locations st.
Proof.
  intros Hfresh. rewrite handleDeleteLocation_locations.
  change (locations (insert newLocation st)) with (locations st ++ [newLocation]).
  rewrite List.filter_app, (filter_absent _ _ Hfresh). simpl.
  rewrite String.eqb_refl. simpl. apply app_nil_r.
Qed.

(** After a map click whose reverse geocoding names no country (or
    fails), the form cannot be saved: whatever it holds, saving leaves
    the state as it is.  The clicked point stays selected only while a
    record is open for editing. *)
Theorem failed_geocoding_blocks_saving (coords : LatLngTuple) (response : option string)
    (now : string) (formData : FormData.t) (st : AppState) :
  response = None \/ response = Some "" ->
  let st' := handleMapClick coords response st in
  handleSaveLocation now formData st' = st' /\
  selectedCountry st' = None /\
  selectedCoords st' = match editingLocation st with
                       | Some _ => Some coords
                       | None => None
                       end /\
  locations st' = locations st /\
  editingLocation st' = editingLocation st.
Proof.
  intros Hresp st'. subst st'.
  assert (Hclick : handleMapClick coords response st
                   = handleMapClick coords None st).
  { destruct Hresp as [->| ->]; reflexivity. }
  rewrite Hclick. unfold handleMapClick, handleSaveLocation, selection.
  cbn [editingLocation selectedCoords selectedCountry locations
       setSelectedCountry setSelectedCoords].
  destruct (editingLocation st) eqn:He;
    cbn [editingLocation selectedCoords selectedCountry locations
         setSelectedCountry setSelectedCoords];
    rewrite ?He; repeat split.
Qed.

(** Opening a record and saving the form without clicking the map: every
    record with its id takes the form's fields and keeps the coordinates
    and the country of the opened record, and nothing stays open or
    selected.  A record whose country is empty (an import may bring one)
    cannot be saved this way: the save is refused. *)
Theorem edit_and_save_keeps_place (location : Location.t) (now : string)
    (formData : FormData.t) (st : AppState) :
  let st' := handleSaveLocation now formData (handleStartEdit location st) in
  (Location.country location = "" -> st' = handleStartEdit location st) /\
  (Location.country location <> "" ->
   (forall (i : nat) (loc : Location.t),
       locations st !! i = Some loc ->
       exists loc',
         locations st' !! i = Some loc' /\
         Location.id loc' = Location.id loc /\
         (Location.id loc <> Location.id location -> loc' = loc) /\
         (Location.id loc = Location.id location ->
          Location.coordinates loc' = Location.coordinates location /\
          Location.country loc' = Location.country location /\
          Location.title loc' = FormData.title formData /\
          Location.description loc' = FormData.description formData)) /\
   editingLocation st' = None /\
   selectedCoords st' = None /\
   selectedCountry st' = None).
Proof.
  intros st'. subst st'. split.
  - intros Hempty. unfold handleSaveLocation, selection, handleStartEdit. simpl.
    rewrite Hempty. reflexivity.
  - intros Hcountry.
    assert (Hsel : selection (handleStartEdit location st)
                   = Some (Location.coordinates location, Location.country location)).
    { apply selection_Some; [reflexivity|reflexivity|exact Hcountry]. }
    split; [|unfold handleSaveLocation; rewrite Hsel; repeat split].
    intros i loc Hi.
    rewrite (handleSaveLocation_update now formData (handleStartEdit location st)
               location _ _ eq_refl Hsel).
    change (locations (handleStartEdit location st)) with (locations st).
    rewrite lookup_map, Hi. simpl.
    destruct (String.eqb_spec (Location.id loc) (Location.id location)) as [Heq|Hne].
    + eexists. split; [reflexivity|]. simpl. repeat split; try congruence.
    + exists loc. repeat split; try congruence.
Qed.

End Composition.

(** * Launch parameters, remote save and export *)

Lemma slice_0_minus_1_slash (s : string) :
  endsWith_slash s = true -> s = slice_0_minus_1 s +:+ "/".
Proof.
  induction s as [|c s IH]; [discriminate|].
  destruct s as [|c' s'].
  - simpl. intros Hc. apply Ascii.eqb_eq in Hc. subst c. reflexivity.
  - intros Hs.
    change (endsWith_slash (String c' s') = true) in Hs.
    change (String c (String c' s')
            = String c (slice_0_minus_1 (String c' s') +:+ "/")).
    f_equal. apply IH. exact Hs.
Qed.

Lemma slice_0_minus_1_empty (s : string) :
  endsWith_slash s = true -> (slice_0_minus_1 s = "" <-> s = "/").
Proof.
  intros Hs. pose proof (slice_0_minus_1_slash s Hs) as Heq. split.
  - intros Hempty. rewrite Hempty in Heq. exact Heq.
  - intros ->. reflexivity.
Qed.

Lemma truthy_string_Some (v : option string) :
  truthy_string v = true <-> exists s, v = Some s /\ s <> "".
Proof.
  destruct v as [s|]; simpl.
  - destruct (String.eqb_spec s ""); simpl; split.
    + discriminate.
    + intros (s' & [= <-] & Hne). contradiction.
    + eauto.
    + reflexivity.
  - split; [discriminate|]. intros (s & Hs & _). discriminate.
Qed.

(** The base address [getURLParams] returns is the parameter [base_url]
    with one trailing slash taken off, if it has one. *)
Lemma getURLParams_baseUrl (params : list (string * string)) (b : string) :
  searchParams_get "base_url" params = Some b ->
  exists b',
    URLParams.baseUrl (getURLParams params) = Some b' /\
    (b = b' +:+ "/" \/ (b = b' /\ endsWith_slash b = false)).
Proof.
  intros Hb. unfold getURLParams. rewrite Hb. simpl.
  destruct (String.eqb_spec b "") as [->|Hne]; simpl.
  - exists "". auto.
  - destruct (endsWith_slash b) eqn:Hslash.
    + exists (slice_0_minus_1 b). split; [reflexivity|]. left.
      apply slice_0_minus_1_slash. exact Hslash.
    + exists b. auto.
Qed.

Lemma hasRequiredParams_getURLParams (params : list (string * string)) :
  hasRequiredParams (getURLParams params) = true <->
  exists userId token artifactId baseUrl : string,
    searchParams_get "userId" params = Some userId /\ userId <> "" /\
    searchParams_get "token" params = Some token /\ token <> "" /\
    searchParams_get "artifact_id" params = Some artifactId /\ artifactId <> "" /\
    searchParams_get "base_url" params = Some baseUrl /\
    baseUrl <> "" /\ baseUrl <> "/".
Proof.
  unfold hasRequiredParams. rewrite !andb_true_iff, !truthy_string_Some.
  assert (Hbase :
    (exists s, URLParams.baseUrl (getURLParams params) = Some s /\ s <> "") <->
    (exists b, searchParams_get "base_url" params = Some b /\ b <> "" /\ b <> "/")).
  { unfold getURLParams. simpl.
    destruct (searchParams_get "base_url" params) as [b|]; simpl.
    - destruct (String.eqb_spec b "") as [->|Hne]; simpl.
      + split; [intros (s & [= <-] & H); contradiction
               |intros (b & [= <-] & H & _); contradiction].
      + destruct (endsWith_slash b) eqn:Hslash; split.
        * intros (s & [= <-] & Hs). exists b. repeat split; auto.
          intros ->. apply Hs. reflexivity.
        * intros (b0 & [= <-] & _ & Hb). eexists. split; [reflexivity|].
          intros Hempty. apply Hb, slice_0_minus_1_empty; assumption.
        * intros (s & [= <-] & Hs). exists b. repeat split; auto.
          intros ->. discriminate.
        * intros (b0 & [= <-] & Hb & _). eauto.
    - split; [intros (s & H & _)|intros (s & H & _)]; discriminate. }
  rewrite Hbase. simpl. split.
  - intros [[[(u & Hu & Hune) (t & Ht & Htne)] (a & Ha & Hane)] (b & Hb & Hbne & Hb1)].
    exists u, t, a, b. repeat split; assumption.
  - intros (u & t & a & b & Hu & Hune & Ht & Htne & Ha & Hane & Hb & Hbne & Hb1).
    repeat split; eauto.
Qed.

(** The launch parameters count as present exactly when [userId],
    [token], [artifact_id] and [base_url] are all given and not empty,
    and [base_url] is more than a single slash. *)
Theorem launch_parameters_required (params : list (string * string)) :
  hasRequiredParams (getURLParams params) = true <->
  exists userId token artifactId baseUrl : string,
    searchParams_get "userId" params = Some userId /\ userId <> "" /\
    searchParams_get "token" params = Some token /\ token <> "" /\
    searchParams_get "artifact_id" params = Some artifactId /\ artifactId <> "" /\
    searchParams_get "base_url" params = Some baseUrl /\
    baseUrl <> "" /\ baseUrl <> "/".
Proof. exact (hasRequiredParams_getURLParams params). Qed.

Section RemoteProperties.
Context `{JSON : JSONBuiltin} `{Global : GlobalBuiltin}.

(** [handleSave] sends a request exactly when the list is not empty and
    the launch parameters are present.  The request is a [PUT] to
    [<base>/studio/artifacts/update/<artifact_id>/], where [<base>] is
    [base_url] without one trailing slash, with the token as bearer; the
    success notice is shown only for an answer that is [ok]. *)
Theorem save_sends_only_with_list_and_parameters (params : list (string * string))
    (fetch : Request -> option bool) (st : AppState) :
  (fst (handleSave params fetch st) <> None <->
   locations st <> [] /\ hasRequiredParams (getURLParams params) = true) /\
  (forall request : Request,
      fst (handleSave params fetch st) = Some request ->
      exists base artifactId token baseUrl : string,
        searchParams_get "base_url" params = Some baseUrl /\
        (baseUrl = base +:+ "/" \/ (baseUrl = base /\ endsWith_slash baseUrl = false)) /\
        searchParams_get "artifact_id" params = Some artifactId /\
        searchParams_get "token" params = Some token /\
        method request = "PUT" /\
        url request = base +:+ "/studio/artifacts/update/" +:+ artifactId +:+ "/" /\
        authorization request = "Bearer " +:+ token /\
        (snd (handleSave params fetch st) = "alert_saveSuccess" <->
         fetch request = Some true)).
Proof.
  unfold handleSave.
  destruct (locations st) as [|loc l] eqn:Hl.
  { split; [|discriminate]. split; [intros H; contradiction|intros [H _]; contradiction]. }
  cbn [length Nat.eqb].
  destruct (hasRequiredParams (getURLParams params)) eqn:Hreq; cbn [negb].
  2:{ split; [|discriminate].
      split; [intros H; contradiction|intros [_ H]; discriminate]. }
  split.
  - split; [intros _; split; [discriminate|reflexivity]|].
    intros _. destruct (fetch _) as [[]|]; discriminate.
  - intros request Hrequest.
    apply hasRequiredParams_getURLParams in Hreq
      as (u & t & a & b & Hu & _ & Ht & _ & Ha & _ & Hb & _ & _).
    destruct (getURLParams_baseUrl params b Hb) as (b' & Hb' & Hshape).
    assert (Ha' : URLParams.artifactId (getURLParams params) = Some a) by exact Ha.
    assert (Ht' : URLParams.token (getURLParams params) = Some t) by exact Ht.
    set (up := getURLParams params) in *.
    rewrite Hb', Ha', Ht' in Hrequest. rewrite Hb', Ha', Ht'.
    cbn [template] in *.
    exists b', a, t, b.
    destruct (fetch _) as [[]|] eqn:Hfetch; cbn [fst snd] in *;
      injection Hrequest as <-; cbn [method url authorization];
      repeat split; auto; try discriminate; try (rewrite Hfetch; discriminate).
Qed.

(** What [handleSave] puts under [artifact_data] is the serialization of
    the list; when the endpoint hands that string back at the next
    start, the mount effect loads the same list and stores it, whatever
    the browser held before.  (Coordinates finite; the platform parses
    what it stringified.) *)
Theorem remote_save_then_load (params : list (string * string))
    (fetch : Request -> option bool) (st st0 : AppState) :
  locations st <> [] ->
  hasRequiredParams (getURLParams params) = true ->
  Forall finite_coordinates (locations st) ->
  JSON_roundtrips (Locations_to_js (locations st)) ->
  exists (request : Request) (artifacts : JSValue) (artifact_data : string),
    fst (handleSave params fetch st) = Some request /\
    body request
    = Some (JSON_stringify
              (JObj [("artifacts", artifacts); ("artifact_data", JStr artifact_data)])) /\
    locations (fetchArtifactData (Some artifact_data) st0) = locations st /\
    in_sync (fetchArtifactData (Some artifact_data) st0).
Proof.
  intros Hne Hreq Hfinite Hrt. unfold handleSave.
  destruct (locations st) as [|loc l] eqn:Hl; [contradiction|]. rewrite <- Hl in *.
  replace (length (locations st) =? 0) with false by (rewrite Hl; reflexivity).
  rewrite Hreq. simpl.
  pose proof (validate_parse_serialize_image _ Hrt) as Himage.
  rewrite JSON_image_Locations, validateLocationsData_to_js in Himage by exact Hfinite.
  unfold validate_parse_serialize in Himage.
  destruct (JSON_parse (JSON_stringify (Locations_to_js (locations st)))) as [d|] eqn:Hp;
    [|discriminate].
  eexists _, _, (JSON_stringify (Locations_to_js (locations st))).
  split; [destruct (fetch _) as [[]|]; reflexivity|].
  split; [reflexivity|].
  rewrite (fetchArtifactData_remote _ d (locations st) st0 Hp Himage).
  split; [reflexivity|]. apply in_sync_store_then_set.
Qed.

(** Nothing is exported from an empty list.  Importing an exported file
    (and confirming) puts the exported list in place of whatever list
    there is.  (Coordinates finite; the platform parses what it printed
    with indentation.) *)
Theorem export_then_import (st st0 : AppState) :
  (locations st = [] <-> handleExport st = None) /\
  (forall text : string,
      handleExport st = Some text ->
      Forall finite_coordinates (locations st) ->
      JSON_parse text = Some (JSON_image (Locations_to_js (locations st))) ->
      locations (handleImport text true st0) = locations st /\
      in_sync (handleImport text true st0)).
Proof.
  unfold handleExport. split.
  - destruct (locations st); simpl; split; congruence.
  - intros text Htext Hfinite Hparse.
    rewrite JSON_image_Locations in Hparse by exact Hfinite.
    apply (accepted_import_replaces_all_locations text _ _ st0 Hparse).
    apply validateLocationsData_to_js.
Qed.

End RemoteProperties.

(** * The tour flag, the language and the form *)

Section Flags.
Context `{JSON : JSONBuiltin}.

Lemma run_keeps_other_keys (key : string) (actions : list Action) (st st' : AppState) :
  key <> "locations" -> run st actions = Some st' -> getItem key st' = getItem key st.
Proof.
  intros Hkey. revert st. induction actions as [|a rest IH]; simpl; intros st Hrun.
  - injection Hrun as <-. reflexivity.
  - destruct (step st a) as [st1|] eqn:Hstep; [|discriminate].
    rewrite (IH st1 Hrun).
    exact (proj1 (other_keys_untouched key st Hkey) a st1 Hstep).
Qed.

(** The tour opens by itself at mount until it has been closed once;
    from then on it never does, whatever is done to the list in between
    (clearing it and importing included). *)
Theorem closed_tour_stays_closed (actions : list Action) (st st' : AppState) :
  run (handleTourClose st) actions = Some st' ->
  tourOpensOnMount st' = false /\
  tourOpensOnMount (loadStoredLocations st') = false /\
  (getItem "tourViewed" st = None -> tourOpensOnMount st = true).
Proof.
  intros Hrun.
  assert (Hflag : getItem "tourViewed" st' = Some "true").
  { rewrite (run_keeps_other_keys "tourViewed" actions _ st' ltac:(discriminate) Hrun).
    unfold handleTourClose, getItem, setItem. simpl. apply lookup_insert_eq. }
  unfold tourOpensOnMount. split; [rewrite Hflag; reflexivity|]. split.
  - rewrite (proj1 (proj2 (other_keys_untouched "tourViewed" st'
                             ltac:(discriminate)))), Hflag.
    reflexivity.
  - intros ->. reflexivity.
Qed.

(** The language the provider stores is the one it starts with next
    time, whatever is done to the list in between; a store without a
    language, or with anything but [ar] and [en], starts in English. *)
Theorem language_is_remembered (language : Language) (actions : list Action)
    (st st' : AppState) :
  run (storeLanguage language st) actions = Some st' ->
  initialLanguage st' = language /\
  toggleLanguage (toggleLanguage language) = language /\
  (getItem "language" st <> Some "ar" -> initialLanguage st = en).
Proof.
  intros Hrun. split; [|split].
  - unfold initialLanguage.
    rewrite (run_keeps_other_keys "language" actions _ st' ltac:(discriminate) Hrun).
    unfold storeLanguage, getItem, setItem. simpl. rewrite lookup_insert_eq.
    destruct language; reflexivity.
  - destruct language; reflexivity.
  - intros Hnot. unfold initialLanguage.
    destruct (getItem "language" st) as [s|]; [|reflexivity].
    destruct (String.eqb_spec s "ar") as [->|_]; [contradiction|].
    destruct (String.eqb s "en"); reflexivity.
Qed.

Lemma or_null_not_empty (s : string) : or_null s <> Some "".
Proof.
  unfold or_null. destruct (String.eqb_spec s ""); [discriminate|congruence].
Qed.

Lemma handleSubmit_guard (now : string) (fields : LocationForm.Fields) (st : AppState) :
  LocationForm.title fields <> "" ->
  LocationForm.description fields <> "" ->
  selection st <> None ->
  LocationForm.handleSubmit now fields st
  = handleSaveLocation now
      {| FormData.title := LocationForm.title fields;
         FormData.description := LocationForm.description fields;
         FormData.image := LocationForm.imageUrl fields;
         FormData.video := LocationForm.videoUrl fields;
         FormData.audio := LocationForm.audioUrl fields;
         FormData.questions := LocationForm.questions fields;
         FormData.block_navigation := LocationForm.blockNavigation fields |} st.
Proof.
  intros Ht Hd Hsel. unfold LocationForm.handleSubmit, selection in *.
  destruct (String.eqb_spec (LocationForm.title fields) ""); [contradiction|].
  destruct (String.eqb_spec (LocationForm.description fields) ""); [contradiction|].
  destruct (selectedCoords st) as [coords|]; [|contradiction].
  destruct (selectedCountry st) as [country|]; [|contradiction].
  simpl. destruct (String.eqb country ""); [contradiction|]. reflexivity.
Qed.

(** A form without title or description, or without a selected point
    and country, changes nothing when submitted.  Otherwise the submit
    saves one record: with nothing open it is appended, with a record
    open it takes the place of each record that has its id, and no other
    record changes.  The saved record has a title, a description and a
    country that are not empty, never an empty string as video or audio,
    and both a question list and a navigation flag. *)
Theorem submitted_records_are_complete (now : string) (fields : LocationForm.Fields)
    (st : AppState) :
  (LocationForm.title fields = "" \/ LocationForm.description fields = "" \/
   selection st = None ->
   LocationForm.handleSubmit now fields st = st) /\
  (LocationForm.title fields <> "" ->
   LocationForm.description fields <> "" ->
   forall (coords : LatLngTuple) (country : string),
     selection st = Some (coords, country) ->
     exists saved : Location.t,
       Location.title saved = LocationForm.title fields /\
       Location.description saved = LocationForm.description fields /\
       Location.country saved = country /\ country <> "" /\
       Location.coordinates saved = coords /\
       Location.video saved <> Some "" /\
       Location.audio saved <> Some "" /\
       Location.questions saved = Some (LocationForm.questions fields) /\
       Location.block_navigation saved = Some (LocationForm.blockNavigation fields) /\
       in_sync (LocationForm.handleSubmit now fields st) /\
       (editingLocation st = None ->
        locations (LocationForm.handleSubmit now fields st) = locations st ++ [saved]) /\
       (forall editing : Location.t,
           editingLocation st = Some editing ->
           Location.id saved = Location.id editing /\
           forall (i : nat) (loc : Location.t),
             locations st !! i = Some loc ->
             locations (LocationForm.handleSubmit now fields st) !! i
             = Some (if String.eqb (Location.id loc) (Location.id editing)
                     then saved else loc))).
Proof.
  split.
  - intros Hrefused. unfold LocationForm.handleSubmit, selection in *.
    destruct (String.eqb_spec (LocationForm.title fields) ""); [reflexivity|].
    destruct (String.eqb_spec (LocationForm.description fields) ""); [reflexivity|].
    destruct Hrefused as [H|[H|H]]; try contradiction.
    destruct (selectedCoords st) as [coords|]; [|reflexivity].
    destruct (selectedCountry st) as [country|]; [|reflexivity].
    simpl. destruct (String.eqb country ""); [reflexivity|discriminate].
  - intros Ht Hd coords country Hsel.
    rewrite handleSubmit_guard by (assumption || congruence).
    set (formData := {| FormData.title := LocationForm.title fields |}).
    assert (Hcountry : country <> "").
    { unfold selection in Hsel.
      destruct (selectedCoords st); [|discriminate].
      destruct (selectedCountry st) as [c|]; [|discriminate].
      destruct (String.eqb_spec c ""); [discriminate|congruence]. }
    destruct (editingLocation st) as [editing|] eqn:He.
    + exists (updatedLocation editing formData coords country).
      repeat split; try assumption; try apply or_null_not_empty.
      * apply handleSaveLocation_in_sync. congruence.
      * discriminate.
      * injection H as <-. reflexivity.
      * injection H as <-. intros i loc Hi.
        rewrite (handleSaveLocation_update now formData st editing coords country He Hsel).
        rewrite lookup_map, Hi. reflexivity.
    + exists (newLocation now formData coords country).
      repeat split; try assumption; try apply or_null_not_empty.
      * apply handleSaveLocation_in_sync. congruence.
      * intros _. unfold handleSaveLocation. rewrite Hsel, He. reflexivity.
      * discriminate.
      * discriminate.
Qed.

End Flags.

(** * The search box *)

Section SearchBox.
Import MapSearchControl.
Variable length_of : string -> nat.

Lemma rows_length (st : State) : length (rows length_of st) <= length (suggestions st).
Proof.
  unfold rows.
  destruct (showSuggestions st && (1 <? length_of (query st))
            && negb (isFetchingSuggestions st)); simpl; lia.
Qed.

Lemma handleKeyDown_highlight_ok (key : Key) (st : State) :
  highlight_ok st -> highlight_ok (handleKeyDown key st).
Proof.
  intros Hok. unfold handleKeyDown.
  destruct (negb (showSuggestions st) || (length (suggestions st) =? 0)) eqn:Hguard;
    [exact Hok|].
  apply orb_false_iff in Hguard as [_ Hn]. apply Nat.eqb_neq in Hn.
  unfold highlight_ok in *.
  destruct key; cbn [highlightedIndex suggestions setHighlightedIndex setShowSuggestions];
    try exact Hok.
  - right. apply Z.rem_bound_pos; lia.
  - right. destruct Hok as [Hnone|Hrow].
    + rewrite Hnone.
      destruct (Nat.eq_dec (length (suggestions st)) 1) as [H1|H1].
      * rewrite H1. replace (Z.rem _ _) with 0%Z by reflexivity. simpl. lia.
      * apply Z.rem_bound_pos; lia.
    + apply Z.rem_bound_pos; lia.
  - left. reflexivity.
Qed.

Lemma handle_highlight_ok (st : State) (e : Event) :
  possible length_of st e -> highlight_ok st -> highlight_ok (handle length_of st e).
Proof.
  intros Hpossible Hok. destruct e; cbn [handle].
  - unfold handleQueryChange. destruct (length_of newQuery <? 2).
    + left. reflexivity.
    + exact Hok.
  - unfold onFocus. destruct (2 <=? length_of (query st)); exact Hok.
  - exact Hok.
  - left. destruct data; reflexivity.
  - exact Hok.
  - unfold handleSubmit.
    destruct (if (-1 <? highlightedIndex st)%Z
              then suggestion_at (highlightedIndex st) st else None); exact Hok.
  - apply handleKeyDown_highlight_ok. exact Hok.
  - right. cbn [possible] in Hpossible. pose proof (rows_length st).
    unfold onMouseEnter. cbn [highlightedIndex suggestions setHighlightedIndex]. lia.
  - exact Hok.
Qed.

Lemma run_highlight_ok (events : list Event) (st : State) :
  possible_run length_of st events -> highlight_ok st ->
  highlight_ok (run length_of st events).
Proof.
  revert st. induction events as [|e rest IH]; intros st Hrun Hok; [exact Hok|].
  destruct Hrun as [He Hrest]. apply (IH _ Hrest). apply handle_highlight_ok; assumption.
Qed.

(** Whatever is typed, fetched, pressed or pointed at, the highlight is
    no row or the index of a suggestion.  So a submit with a highlight
    always selects the highlighted place, and a submit without one
    searches for the text in the box. *)
Theorem highlight_is_a_suggestion (events : list Event) :
  possible_run length_of initialState events ->
  let st := run length_of initialState events in
  highlight_ok st /\
  (highlightedIndex st = (-1)%Z -> snd (handleSubmit st) = onSearch (query st)) /\
  (highlightedIndex st <> (-1)%Z ->
   exists place : Place.t,
     suggestions st !! Z.to_nat (highlightedIndex st) = Some place /\
     handleSubmit st = handleSuggestionClick place st).
Proof.
  intros Hrun st.
  assert (Hok : highlight_ok st).
  { apply run_highlight_ok; [exact Hrun|]. left. reflexivity. }
  split; [exact Hok|]. unfold handleSubmit. split.
  - intros ->. reflexivity.
  - intros Hrow. destruct Hok as [Hnone|[H0 Hn]]; [contradiction|].
    destruct (lookup_lt_is_Some_2 (suggestions st) (Z.to_nat (highlightedIndex st)))
      as [place Hplace]; [lia|].
    exists place. split; [exact Hplace|].
    replace (-1 <? highlightedIndex st)%Z with true by (symmetry; apply Z.ltb_lt; lia).
    unfold suggestion_at.
    replace (highlightedIndex st <? 0)%Z with false by (symmetry; apply Z.ltb_ge; lia).
    rewrite Hplace. reflexivity.
Qed.

(** With the list shown and not empty: from a highlighted row the arrow
    keys move one row down or up and wrap around, and each undoes the
    other.  From no highlight, the down arrow goes to the first row; the
    up arrow goes to the row before the last one (to the only row when
    there is one), not to the last. *)
Theorem arrow_keys_cycle (st : State) :
  showSuggestions st = true ->
  suggestions st <> [] ->
  let n := Z.of_nat (length (suggestions st)) in
  ((0 <= highlightedIndex st < n)%Z ->
   highlightedIndex (handleKeyDown ArrowDown st) = ((highlightedIndex st + 1) mod n)%Z /\
   highlightedIndex (handleKeyDown ArrowUp st) = ((highlightedIndex st - 1) mod n)%Z /\
   handleKeyDown ArrowUp (handleKeyDown ArrowDown st) = st /\
   handleKeyDown ArrowDown (handleKeyDown ArrowUp st) = st) /\
  (highlightedIndex st = (-1)%Z ->
   highlightedIndex (handleKeyDown ArrowDown st) = 0%Z /\
   highlightedIndex (handleKeyDown ArrowUp st) = Z.max 0 (n - 2)).
Proof.
  intros Hshow Hne n.
  assert (Hn : (0 < n)%Z).
  { subst n. destruct (suggestions st); [contradiction|simpl; lia]. }
  assert (Hguard : forall h : Z,
             negb (showSuggestions (setHighlightedIndex h st))
             || (length (suggestions (setHighlightedIndex h st)) =? 0) = false).
  { intros h. cbn [showSuggestions suggestions setHighlightedIndex]. rewrite Hshow.
    simpl. apply Nat.eqb_neq. subst n. lia. }
  assert (Hguard0 : negb (showSuggestions st) || (length (suggestions st) =? 0) = false).
  { rewrite Hshow. simpl. apply Nat.eqb_neq. subst n. lia. }
  assert (Hdown : handleKeyDown ArrowDown st
                  = setHighlightedIndex (Z.rem (highlightedIndex st + 1)%Z n) st).
  { unfold handleKeyDown. rewrite Hguard0. reflexivity. }
  assert (Hup : handleKeyDown ArrowUp st
                = setHighlightedIndex (Z.rem (highlightedIndex st - 1 + n)%Z n) st).
  { unfold handleKeyDown. rewrite Hguard0. reflexivity. }
  assert (Hdown' : forall h, handleKeyDown ArrowDown (setHighlightedIndex h st)
                             = setHighlightedIndex (Z.rem (h + 1)%Z n) st).
  { intros h. unfold handleKeyDown. rewrite Hguard. reflexivity. }
  assert (Hup' : forall h, handleKeyDown ArrowUp (setHighlightedIndex h st)
                           = setHighlightedIndex (Z.rem (h - 1 + n)%Z n) st).
  { intros h. unfold handleKeyDown. rewrite Hguard. reflexivity. }
  assert (Hsame : setHighlightedIndex (highlightedIndex st) st = st).
  { destruct st. reflexivity. }
  split.
  - intros Hrow.
    assert (Hd : (Z.rem (highlightedIndex st + 1) n = (highlightedIndex st + 1) mod n)%Z)
      by (apply Z.rem_mod_nonneg; lia).
    assert (Hu : (Z.rem (highlightedIndex st - 1 + n) n = (highlightedIndex st - 1) mod n)%Z).
    { rewrite Z.rem_mod_nonneg by lia.
      rewrite <- (Z.mod_add (highlightedIndex st - 1)%Z 1%Z n) by lia. f_equal. lia. }
    rewrite Hdown, Hup, Hup', Hdown', Hd, Hu.
    cbn [highlightedIndex setHighlightedIndex].
    split; [reflexivity|]. split; [reflexivity|].
    assert (Hback1 : (Z.rem ((highlightedIndex st + 1) mod n - 1 + n) n = highlightedIndex st)%Z).
    { rewrite Z.rem_mod_nonneg by (pose proof (Z.mod_pos_bound (highlightedIndex st + 1)%Z n Hn); lia).
      destruct (Z.eq_dec (highlightedIndex st + 1)%Z n) as [Hlast|Hlast].
      - rewrite Hlast, Z.mod_same by lia.
        replace (0 - 1 + n)%Z with (highlightedIndex st) by lia.
        apply Z.mod_small; lia.
      - rewrite (Z.mod_small (highlightedIndex st + 1)%Z n) by lia.
        replace (highlightedIndex st + 1 - 1 + n)%Z with (highlightedIndex st + 1 * n)%Z by lia.
        rewrite Z.mod_add by lia. apply Z.mod_small; lia. }
    assert (Hback2 : (Z.rem ((highlightedIndex st - 1) mod n + 1) n = highlightedIndex st)%Z).
    { rewrite Z.rem_mod_nonneg by (pose proof (Z.mod_pos_bound (highlightedIndex st - 1)%Z n Hn); lia).
      destruct (Z.eq_dec (highlightedIndex st) 0%Z) as [Hfirst|Hfirst].
      - rewrite Hfirst.
        replace (0 - 1)%Z with (n - 1 + (-1) * n)%Z by lia.
        rewrite Z.mod_add by lia. rewrite (Z.mod_small (n - 1)%Z n) by lia.
        replace (n - 1 + 1)%Z with n by lia. apply Z.mod_same; lia.
      - rewrite (Z.mod_small (highlightedIndex st - 1)%Z n) by lia.
        replace (highlightedIndex st - 1 + 1)%Z with (highlightedIndex st) by lia.
        apply Z.mod_small; lia. }
    rewrite Hback1, Hback2, Hsame. split; reflexivity.
  - intros Hnone. rewrite Hdown, Hup, Hnone.
    cbn [highlightedIndex setHighlightedIndex]. split.
    + apply Z.rem_small. lia.
    + destruct (Z.eq_dec n 1%Z) as [H1|H1]; [rewrite H1; reflexivity|].
      rewrite Z.rem_small by lia. lia.
Qed.

Lemma handle_debounce_ok (st : State) (e : Event) :
  debounce_ok length_of st -> debounce_ok length_of (handle length_of st e).
Proof.
  intros Hok q. destruct e; cbn [handle].
  - unfold handleQueryChange. destruct (length_of newQuery <? 2) eqn:Hshort.
    + discriminate.
    + intros [= <-]. split; [reflexivity|]. apply Nat.ltb_ge in Hshort. exact Hshort.
  - unfold onFocus. destruct (2 <=? length_of (query st)); apply Hok.
  - discriminate.
  - destruct data; apply Hok.
  - discriminate.
  - unfold handleSubmit.
    destruct (if (-1 <? highlightedIndex st)%Z
              then suggestion_at (highlightedIndex st) st else None); discriminate.
  - unfold handleKeyDown.
    destruct (negb (showSuggestions st) || (length (suggestions st) =? 0));
      [apply Hok|destruct key; apply Hok].
  - apply Hok.
  - apply Hok.
Qed.

(** A fetch that waits for the debounce timer is always for the text now
    in the box, and that text has two characters or more: typing on,
    picking a suggestion and submitting all cancel the timer. *)
Theorem pending_fetch_is_for_the_query (events : list Event) (q : string) :
  let st := run length_of initialState events in
  fst (debounceFires st) = Some q ->
  q = query st /\ 2 <= length_of q.
Proof.
  intros st. subst st. cbn [fst debounceFires].
  assert (Hinv : forall st0, debounce_ok length_of st0 ->
                             debounce_ok length_of (run length_of st0 events)).
  { induction events as [|e rest IH]; intros st0 Hok; [exact Hok|].
    apply IH, handle_debounce_ok, Hok. }
  apply Hinv. intros q0. discriminate.
Qed.

End SearchBox.

(** * The quiz builder *)

Section Quiz.
Import QuizBuilder.

Lemma read_inv (h : Heap) (r : nat) (q : Question.t) (opts : list string) :
  read h r = Some q ->
  Question.options q = Some opts ->
  exists (o : QuestionObject) (a : nat),
    objects h !! r = Some o /\ options o = Some a /\ arrays h !! a = Some opts /\
    Question.answer q = answer o.
Proof.
  unfold read. intros Hread Hopts.
  destruct (objects h !! r) as [o|]; [|discriminate].
  destruct (options o) as [a|] eqn:Ha.
  - destruct (arrays h !! a) as [opts'|] eqn:Harr; [|discriminate].
    injection Hread as <-. simpl in Hopts. injection Hopts as ->.
    exists o, a. auto.
  - injection Hread as <-. discriminate.
Qed.

Lemma read_written (h : Heap) (r a : nat) (o : QuestionObject) (opts : list string) :
  options o = Some a ->
  read (write_array a opts (write_object r o h)) r
  = Some {| Question.id := id o; Question.text := text o; Question.type := type o;
            Question.options := Some opts; Question.answer := answer o |}.
Proof.
  intros Ha. unfold read, write_array, write_object. cbn [objects arrays].
  rewrite lookup_insert_eq, Ha, lookup_insert_eq. reflexivity.
Qed.

Lemma delete_not_nil {T : Type} (l : list T) (i : nat) :
  1 < length l -> delete i l <> [].
Proof.
  destruct l as [|x [|y l]]; simpl; try lia. intros _. destruct i; discriminate.
Qed.

Lemma In_insert_other (opts : list string) (i : nat) (x y : string) :
  In y opts -> opts !! i <> Some y -> In y (<[i := x]> opts).
Proof.
  intros Hin Hi. apply list_elem_of_In, list_elem_of_lookup_1 in Hin as [j Hj].
  apply list_elem_of_In, (list_elem_of_lookup_2 _ j).
  rewrite list_lookup_insert_ne; [exact Hj|]. intros ->. contradiction.
Qed.

Lemma In_delete_other (opts : list string) (i : nat) (y : string) :
  In y opts -> opts !! i <> Some y -> In y (delete i opts).
Proof.
  intros Hin Hi. apply list_elem_of_In, list_elem_of_lookup_1 in Hin as [j Hj].
  apply list_elem_of_In.
  destruct (Nat.lt_total j i) as [Hlt|[->|Hgt]].
  - apply (list_elem_of_lookup_2 _ j). rewrite list_lookup_delete_lt by lia. exact Hj.
  - contradiction.
  - apply (list_elem_of_lookup_2 _ (pred j)).
    rewrite list_lookup_delete_ge by lia.
    replace (S (pred j)) with j by lia. exact Hj.
Qed.

(** For a question of the list that has options and whose answer is
    empty or one of them: adding an option, changing one (or writing one
    just past the end) and removing one all succeed, change the options
    as asked, and leave the answer empty or one of the options.  Removing
    never takes the last option away. *)
Theorem option_edits_keep_answer_among_options (qIndex r : nat) (q : Question.t)
    (opts : list string) (st : State) :
  questions st !! qIndex = Some r ->
  read (heap st) r = Some q ->
  Question.options q = Some opts ->
  answer_among_options q ->
  (exists (st' : State) (q' : Question.t),
      handleAddOption qIndex st = Some st' /\
      read (heap st') r = Some q' /\
      Question.options q' = Some (opts ++ [""]) /\
      Question.answer q' = Question.answer q /\
      answer_among_options q') /\
  (forall (oIndex : nat) (newText : string),
      oIndex <= length opts ->
      exists (st' : State) (q' : Question.t),
        handleOptionChange qIndex oIndex newText st = Some st' /\
        read (heap st') r = Some q' /\
        Question.options q'
        = Some (if oIndex <? length opts then <[oIndex := newText]> opts
                else opts ++ [newText]) /\
        answer_among_options q') /\
  (forall oIndex : nat,
      exists (st' : State) (q' : Question.t) (opts' : list string),
        handleRemoveOption qIndex oIndex st = Some st' /\
        read (heap st') r = Some q' /\
        Question.options q' = Some opts' /\
        opts' = (if 1 <? length opts then delete oIndex opts else opts) /\
        (opts <> [] -> opts' <> []) /\
        answer_among_options q').
Proof.
  intros Hr Hread Hopts Hamong.
  destruct (read_inv _ _ _ _ Hread Hopts) as (o & a & Ho & Ha & Harr & Hanswer).
  unfold answer_among_options in Hamong. rewrite Hopts, Hanswer in Hamong.
  split; [|split].
  - unfold handleAddOption. rewrite Hr, Ho, Ha, Harr.
    eexists _, _. split; [reflexivity|]. cbn [heap].
    split.
    { unfold read, write_array. cbn [objects arrays].
      rewrite Ho, Ha, lookup_insert_eq. reflexivity. }
    cbn [Question.options Question.answer]. unfold answer_among_options.
    cbn [Question.options Question.answer].
    repeat split; [congruence|].
    destruct Hamong as [Hempty|Hin]; [left; exact Hempty|right].
    apply in_or_app. left. exact Hin.
  - intros oIndex newText Hle. unfold handleOptionChange. rewrite Hr, Ho, Ha, Harr.
    destruct (oIndex <? length opts) eqn:Hlt.
    + apply Nat.ltb_lt in Hlt.
      eexists _, _. split; [reflexivity|]. cbn [heap]. split.
      { apply read_written.
        destruct (bool_decide (opts !! oIndex = Some (answer o))); exact Ha. }
      unfold answer_among_options. cbn [Question.options Question.answer].
      split; [reflexivity|].
      destruct (bool_decide (opts !! oIndex = Some (answer o))) eqn:Hhit.
      * right. cbn [answer set_answer].
        apply list_elem_of_In, list_elem_of_insert. exact Hlt.
      * apply bool_decide_eq_false in Hhit.
        destruct Hamong as [Hempty|Hin]; [left; exact Hempty|right].
        apply In_insert_other; assumption.
    + apply Nat.ltb_ge in Hlt.
      replace (oIndex =? length opts) with true by (symmetry; apply Nat.eqb_eq; lia).
      eexists _, _. split; [reflexivity|]. cbn [heap]. split.
      { apply read_written.
        destruct (bool_decide (opts !! oIndex = Some (answer o))); exact Ha. }
      unfold answer_among_options. cbn [Question.options Question.answer].
      split; [reflexivity|].
      rewrite bool_decide_eq_false_2
        by (rewrite lookup_ge_None_2 by lia; discriminate).
      destruct Hamong as [Hempty|Hin]; [left; exact Hempty|right].
      apply in_or_app. left. exact Hin.
  - intros oIndex. unfold handleRemoveOption. rewrite Hr, Ho, Ha, Harr.
    destruct (1 <? length opts) eqn:Hmany.
    + apply Nat.ltb_lt in Hmany.
      eexists _, _, _. split; [reflexivity|]. cbn [heap]. split.
      { apply read_written.
        destruct (bool_decide (opts !! oIndex = Some (answer o))); exact Ha. }
      cbn [Question.options]. split; [reflexivity|]. split; [reflexivity|]. split.
      { intros _. apply delete_not_nil. exact Hmany. }
      unfold answer_among_options. cbn [Question.options Question.answer].
      destruct (bool_decide (opts !! oIndex = Some (answer o))) eqn:Hhit.
      * left. reflexivity.
      * apply bool_decide_eq_false in Hhit.
        destruct Hamong as [Hempty|Hin]; [left; exact Hempty|right].
        apply In_delete_other; assumption.
    + exists st, q, opts. repeat split; auto.
      unfold answer_among_options. rewrite Hopts, Hanswer. exact Hamong.
Qed.

(** Changing a field of a question puts a copy in the list and leaves the
    original object as it was; but the copy has the same option array.
    So an option typed into the form reaches the original (the question
    of the record under edit) before anything is saved: in place when the
    question was not changed before, and through the shared array, with
    the original's answer left as it was, when it was. *)
Theorem option_edit_reaches_the_record_under_edit (qIndex r a oIndex : nat)
    (o : QuestionObject) (opts : list string) (newText : string) (st : State) :
  questions st !! qIndex = Some r ->
  objects (heap st) !! r = Some o ->
  options o = Some a ->
  arrays (heap st) !! a = Some opts ->
  oIndex < length opts ->
  (exists st' : State,
      handleOptionChange qIndex oIndex newText st = Some st' /\
      questions st' = questions st /\
      read (heap st') r
      = Some {| Question.id := id o; Question.text := text o; Question.type := type o;
                Question.options := Some (<[oIndex := newText]> opts);
                Question.answer :=
                  if bool_decide (opts !! oIndex = Some (answer o))
                  then newText else answer o |}) /\
  (forall value : string,
      exists (st1 st2 : State) (r' : nat),
        handleQuestionChange qIndex (field_text value) st = Some st1 /\
        questions st1 !! qIndex = Some r' /\
        r' <> r /\
        read (heap st1) r = read (heap st) r /\
        handleOptionChange qIndex oIndex newText st1 = Some st2 /\
        read (heap st2) r
        = Some {| Question.id := id o; Question.text := text o; Question.type := type o;
                  Question.options := Some (<[oIndex := newText]> opts);
                  Question.answer := answer o |}).
Proof.
  intros Hr Ho Ha Harr Hlt.
  assert (Hltb : (oIndex <? length opts) = true) by (apply Nat.ltb_lt; exact Hlt).
  split.
  - unfold handleOptionChange. rewrite Hr, Ho, Ha, Harr, Hltb.
    eexists. split; [reflexivity|]. split; [reflexivity|]. cbn [heap].
    rewrite read_written
      by (destruct (bool_decide (opts !! oIndex = Some (answer o))); exact Ha).
    destruct (bool_decide (opts !! oIndex = Some (answer o))); reflexivity.
  - intros value.
    set (r' := fresh (dom (objects (heap st)))).
    assert (Hfresh : r' <> r).
    { intros Heq. apply (is_fresh (dom (objects (heap st)))).
      fold r'. rewrite Heq. apply (elem_of_dom_2 _ _ _ Ho). }
    set (copy := with_field o (field_text value)).
    set (h1 := {| objects := <[r' := copy]> (objects (heap st));
                  arrays := arrays (heap st) |}).
    set (st1 := {| heap := h1; questions := <[qIndex := r']> (questions st) |}).
    assert (H1 : handleQuestionChange qIndex (field_text value) st = Some st1).
    { unfold handleQuestionChange. rewrite Hr, Ho. reflexivity. }
    assert (Hr1 : questions st1 !! qIndex = Some r').
    { apply list_lookup_insert_eq. apply (lookup_lt_Some _ _ _ Hr). }
    assert (Ho1 : objects (heap st1) !! r' = Some copy) by apply lookup_insert_eq.
    exists st1.
    eexists _, r'. split; [exact H1|]. split; [exact Hr1|]. split; [exact Hfresh|].
    split.
    { unfold read. cbn [heap st1 h1 objects arrays].
      rewrite lookup_insert_ne by exact Hfresh. reflexivity. }
    unfold handleOptionChange. rewrite Hr1, Ho1.
    cbn [options copy with_field]. rewrite Ha.
    cbn [heap st1 h1 arrays]. rewrite Harr, Hltb.
    split; [reflexivity|].
    unfold read, write_array, write_object, h1. cbn [heap objects arrays].
    rewrite !lookup_insert_ne by exact Hfresh.
    rewrite Ho, Ha, lookup_insert_eq. reflexivity.
Qed.

End Quiz.

(** * The store and the records the form writes into *)

Section SharedRecords.
Context `{JSON : JSONBuiltin}.
Import QuizBuilder.

Lemma read_still_defined (h : Heap) (r a : nat) (o' : QuestionObject)
    (new : list string) (r2 : nat) :
  options o' = Some a ->
  is_Some (read h r2) ->
  is_Some (read (write_array a new (write_object r o' h)) r2).
Proof.
  intros Ho' [q Hq]. unfold read, write_array, write_object in *. cbn [objects arrays].
  destruct (decide (r2 = r)) as [->|Hne].
  - rewrite lookup_insert_eq, Ho', lookup_insert_eq. eauto.
  - rewrite lookup_insert_ne by congruence.
    destruct (objects h !! r2) as [o2|]; [|discriminate].
    destruct (options o2) as [a2|]; [|eauto].
    destruct (decide (a2 = a)) as [->|Ha].
    + rewrite lookup_insert_eq. eauto.
    + rewrite lookup_insert_ne by congruence.
      destruct (arrays h !! a2); [eauto|discriminate].
Qed.

Lemma view_still_defined (h : Heap) (r a : nat) (o' : QuestionObject)
    (new : list string) (location : Memory.LocationObject) :
  options o' = Some a ->
  is_Some (Memory.view h location) ->
  is_Some (Memory.view (write_array a new (write_object r o' h)) location).
Proof.
  intros Ho' [loc Hloc]. unfold Memory.view in *.
  destruct (Memory.questions location) as [rs|]; [|eauto].
  destruct (mapM (read h) rs) as [qs|] eqn:Hqs; [|discriminate].
  destruct (mapM_is_Some_2 (read (write_array a new (write_object r o' h))) rs)
    as [qs' Hqs'].
  - pose proof (mapM_is_Some_1 (read h) rs ltac:(eauto)) as Hall.
    eapply Forall_impl; [exact Hall|]. intros r2 Hr2.
    apply read_still_defined; assumption.
  - rewrite Hqs'. eauto.
Qed.

Lemma view_changed (h h' : Heap) (location : Memory.LocationObject) (rs : list nat)
    (qIndex r : nat) (q q' : Question.t) (loc loc' : Location.t) :
  Memory.questions location = Some rs ->
  rs !! qIndex = Some r ->
  read h r = Some q -> read h' r = Some q' -> q <> q' ->
  Memory.view h location = Some loc -> Memory.view h' location = Some loc' ->
  loc <> loc'.
Proof.
  intros Hrs Hr Hq Hq' Hne Hloc Hloc' Heq. unfold Memory.view in *. rewrite Hrs in *.
  destruct (mapM (read h) rs) as [qs|] eqn:Hqs; [|discriminate].
  destruct (mapM (read h') rs) as [qs'|] eqn:Hqs'; [|discriminate].
  injection Hloc as <-. injection Hloc' as <-.
  apply (f_equal Location.questions) in Heq. cbn in Heq. injection Heq as <-.
  apply mapM_Some_1 in Hqs, Hqs'.
  destruct (Forall2_lookup_l _ _ _ _ _ Hqs Hr) as (q1 & Hq1 & Hread1).
  destruct (Forall2_lookup_l _ _ _ _ _ Hqs' Hr) as (q2 & Hq2 & Hread2).
  congruence.
Qed.

(** A store in step with the list stays in step over the handlers of
    [App].  The form does not keep it so: once a record of the list is
    opened, changing one of its options to another text writes into the
    record's own question object, so the list in memory changes while
    the store still holds the list as it was.  Cancelling the edit does
    not undo this, and the next handler that writes the store (a delete
    here) stores the list with the changed option. *)
Theorem in_sync_holds_until_an_option_edit (st : AppState) :
  in_sync st ->
  (forall (actions : list Action) (st' : AppState),
      run st actions = Some st' -> in_sync st') /\
  (forall (form : State) (records : list Memory.LocationObject)
          (location : Memory.LocationObject) (rs : list nat) (o : QuestionObject)
          (opts : list string) (i qIndex oIndex r a : nat) (newText : string),
      mapM (Memory.view (heap form)) records = Some (locations st) ->
      records !! i = Some location ->
      Memory.questions location = Some rs ->
      rs !! qIndex = Some r ->
      objects (heap form) !! r = Some o ->
      options o = Some a ->
      arrays (heap form) !! a = Some opts ->
      oIndex < length opts ->
      opts !! oIndex <> Some newText ->
      exists (opened : AppState) (form' : State) (st' : AppState),
        Memory.handleEdit (heap form) location st = Some opened /\
        handleOptionChange qIndex oIndex newText
          (syncQuestions (Memory.questions location) form) = Some form' /\
        Memory.reread (heap form') records (Some location) opened = Some st' /\
        locations st' <> locations st /\
        getItem "locations" st' = Some (JSON_stringify (Locations_to_js (locations st))) /\
        (in_sync st' <->
         JSON_stringify (Locations_to_js (locations st'))
         = JSON_stringify (Locations_to_js (locations st))) /\
        (forall id : string,
            let st'' := handleDeleteLocation id (handleCancelEdit st') in
            locations st''
            = List.filter (fun loc => negb (String.eqb (Location.id loc) id)) (locations st') /\
            in_sync st'')).
Proof.
  intros Hsync. split.
  { intros actions st' Hrun. exact (in_sync_run actions st st' Hsync Hrun). }
  intros form records location rs o opts i qIndex oIndex r a newText
         Hmem Hi Hrs Hr Ho Ha Harr Hlt Hnew.
  set (h := heap form) in *.
  set (o' := if bool_decide (opts !! oIndex = Some (answer o))
             then set_answer newText o else o).
  assert (Ho' : options o' = Some a).
  { unfold o'. destruct (bool_decide (opts !! oIndex = Some (answer o))); exact Ha. }
  set (h' := write_array a (<[oIndex := newText]> opts) (write_object r o' h)).
  pose proof (mapM_Some_1 _ _ _ Hmem) as Hviews.
  destruct (Forall2_lookup_l _ _ _ _ _ Hviews Hi) as (loc & Hloc & Hview).
  assert (Hform : handleOptionChange qIndex oIndex newText
                    (syncQuestions (Memory.questions location) form)
                  = Some {| heap := h'; questions := rs |}).
  { unfold handleOptionChange, syncQuestions. rewrite Hrs. cbn [questions heap].
    fold h. rewrite Hr, Ho, Ha, Harr.
    replace (oIndex <? length opts) with true by (symmetry; apply Nat.ltb_lt; exact Hlt).
    reflexivity. }
  destruct (view_still_defined h r a o' (<[oIndex := newText]> opts) location Ho')
    as [loc' Hview']; [eauto|]. fold h' in Hview'.
  destruct (mapM_is_Some_2 (Memory.view h') records) as [l' Hmem'].
  { pose proof (mapM_is_Some_1 (Memory.view h) records ltac:(eauto)) as Hall.
    eapply Forall_impl; [exact Hall|]. intros lo Hlo.
    apply view_still_defined; assumption. }
  assert (Hchanged : loc <> loc').
  { eapply (view_changed h h' location rs qIndex r); try eassumption.
    - unfold read. rewrite Ho, Ha, Harr. reflexivity.
    - unfold h'. apply read_written. exact Ho'.
    - intros Heq. apply (f_equal Question.options) in Heq.
      cbn [Question.options] in Heq. injection Heq as Hopts. apply Hnew.
      rewrite Hopts at 1. apply list_lookup_insert_eq. exact Hlt. }
  assert (Hl' : l' <> locations st).
  { intros ->. apply mapM_Some_1 in Hmem'.
    destruct (Forall2_lookup_l _ _ _ _ _ Hmem' Hi) as (loc2 & Hloc2 & Hview2).
    congruence. }
  exists (handleStartEdit loc st), {| heap := h'; questions := rs |},
         (setEditingLocation (Some loc') (setLocations l' (handleStartEdit loc st))).
  split; [unfold Memory.handleEdit; rewrite Hview; reflexivity|].
  split; [exact Hform|].
  split; [unfold Memory.reread; cbn [heap]; rewrite Hmem', Hview'; reflexivity|].
  split; [exact Hl'|].
  split; [exact Hsync|].
  split.
  - unfold in_sync at 1.
    change (getItem "locations"
              (setEditingLocation (Some loc') (setLocations l' (handleStartEdit loc st))))
      with (getItem "locations" st).
    rewrite Hsync. cbn [locations setEditingLocation setLocations].
    split; [intros [= H]; symmetry; exact H|intros ->; reflexivity].
  - intros id st''. subst st''. split.
    + rewrite handleDeleteLocation_locations. reflexivity.
    + apply handleDeleteLocation_in_sync.
Qed.

End SharedRecords.

(** * The properties at sample data *)

Lemma only_the_locations_key_is_written_witness :
  let st := handleTourClose (Sample.state [Sample.petra]) in
  (forall (a : Action) (st' : AppState),
      @step RefJSON_builtin st a = Some st' ->
      getItem "tourViewed" st' = getItem "tourViewed" st) /\
  getItem "tourViewed" (@loadStoredLocations RefJSON_builtin st) = getItem "tourViewed" st /\
  (forall artifact_data : option string,
      getItem "tourViewed" (@fetchArtifactData RefJSON_builtin artifact_data st)
      = getItem "tourViewed" st).
Proof.
  apply (@only_the_locations_key_is_written RefJSON_builtin "tourViewed"). discriminate.
Defined.

Lemma reorder_there_and_back_witness :
  exists st1 st2 : AppState,
    @handleReorderLocations RefJSON_builtin 0 2
      (Sample.state [Sample.petra; Sample.amman; Sample.jerash]) = Some st1 /\
    @handleReorderLocations RefJSON_builtin 2 0 st1 = Some st2 /\
    locations st2 = [Sample.petra; Sample.amman; Sample.jerash].
Proof.
  apply (@reorder_there_and_back RefJSON_builtin
           (Sample.state [Sample.petra; Sample.amman; Sample.jerash]) 0 2); simpl; lia.
Defined.

Lemma insert_then_delete_witness :
  locations (@handleDeleteLocation RefJSON_builtin (Location.id Sample.aqaba)
               (@insert RefJSON_builtin Sample.aqaba
                  (Sample.state [Sample.petra; Sample.amman])))
  = [Sample.petra; Sample.amman].
Proof.
  apply (@insert_then_delete RefJSON_builtin Sample.aqaba
           (Sample.state [Sample.petra; Sample.amman])).
  simpl. intros [H|[H|[]]]; discriminate.
Defined.

Lemma failed_geocoding_blocks_saving_witness :
  let st' := handleMapClick (Finite (2961 # 100), Finite (3543 # 100)) (Some "")
               (Sample.state [Sample.petra]) in
  @handleSaveLocation RefJSON_builtin "2024-05-02T08:00:00.000Z" Sample.form st' = st' /\
  selectedCountry st' = None /\
  selectedCoords st' = None /\
  locations st' = [Sample.petra] /\
  editingLocation st' = None.
Proof.
  apply (@failed_geocoding_blocks_saving RefJSON_builtin
           (Finite (2961 # 100), Finite (3543 # 100)) (Some "")
           "2024-05-02T08:00:00.000Z" Sample.form (Sample.state [Sample.petra])).
  right. reflexivity.
Defined.

Lemma remote_save_then_load_witness :
  exists (request : Request) (artifacts : JSValue) (artifact_data : string),
    fst (@handleSave RefJSON_builtin RefGlobal_builtin Sample.launch Sample.accepting
           (Sample.state [Sample.petra; Sample.amman])) = Some request /\
    body request
    = Some (RefJSON.print_value
              (JObj [("artifacts", artifacts); ("artifact_data", JStr artifact_data)])) /\
    locations (@fetchArtifactData RefJSON_builtin (Some artifact_data)
                 (Sample.state [Sample.jerash]))
    = [Sample.petra; Sample.amman] /\
    @in_sync RefJSON_builtin
      (@fetchArtifactData RefJSON_builtin (Some artifact_data)
         (Sample.state [Sample.jerash])).
Proof.
  apply (@remote_save_then_load RefJSON_builtin RefGlobal_builtin Sample.launch
           Sample.accepting (Sample.state [Sample.petra; Sample.amman])
           (Sample.state [Sample.jerash])).
  - discriminate.
  - reflexivity.
  - repeat constructor.
  - vm_compute. reflexivity.
Defined.

Lemma export_then_import_witness :
  exists text : string,
    @handleExport RefGlobal_builtin (Sample.state [Sample.petra; Sample.jerash])
    = Some text /\
    locations (@handleImport RefJSON_builtin text true (Sample.state [Sample.amman]))
    = [Sample.petra; Sample.jerash].
Proof.
  eexists. split; [reflexivity|].
  apply (proj2 (@export_then_import RefJSON_builtin RefGlobal_builtin
                  (Sample.state [Sample.petra; Sample.jerash])
                  (Sample.state [Sample.amman]))).
  - reflexivity.
  - repeat constructor.
  - vm_compute. reflexivity.
Defined.

Lemma closed_tour_stays_closed_witness :
  let st' := @handleClearAllLocations RefJSON_builtin true
               (@handleDeleteLocation RefJSON_builtin (Location.id Sample.petra)
                  (handleTourClose (Sample.state [Sample.petra; Sample.amman]))) in
  tourOpensOnMount st' = false /\
  tourOpensOnMount (@loadStoredLocations RefJSON_builtin st') = false /\
  (getItem "tourViewed" (Sample.state [Sample.petra; Sample.amman]) = None ->
   tourOpensOnMount (Sample.state [Sample.petra; Sample.amman]) = true).
Proof.
  apply (@closed_tour_stays_closed RefJSON_builtin
           [DeleteLocation (Location.id Sample.petra); ClearAllLocations true]
           (Sample.state [Sample.petra; Sample.amman])).
  reflexivity.
Defined.

Lemma language_is_remembered_witness :
  let st' := @handleClearAllLocations RefJSON_builtin true
               (storeLanguage ar (Sample.state [Sample.petra])) in
  initialLanguage st' = ar /\
  toggleLanguage (toggleLanguage ar) = ar /\
  (getItem "language" (Sample.state [Sample.petra]) <> Some "ar" ->
   initialLanguage (Sample.state [Sample.petra]) = en).
Proof.
  apply (@language_is_remembered RefJSON_builtin ar [ClearAllLocations true]
           (Sample.state [Sample.petra])).
  reflexivity.
Defined.

Lemma submitted_records_are_complete_witness :
  let st := handleMapClick (Finite (2961 # 100), Finite (3543 # 100)) (Some "Jordan")
              (Sample.state [Sample.petra]) in
  exists saved : Location.t,
    Location.title saved = "Wadi Rum" /\
    Location.country saved = "Jordan" /\
    Location.video saved <> Some "" /\
    locations (@LocationForm.handleSubmit RefJSON_builtin "2024-05-02T08:00:00.000Z"
                 Sample.fields st)
    = [Sample.petra; saved].
Proof.
  intros st.
  destruct (proj2 (@submitted_records_are_complete RefJSON_builtin
                     "2024-05-02T08:00:00.000Z" Sample.fields st))
    with (coords := (Finite (2961 # 100), Finite (3543 # 100))) (country := "Jordan")
    as (saved & Htitle & _ & Hcountry & _ & _ & Hvideo & _ & _ & _ & _ & Hnew & _).
  - discriminate.
  - discriminate.
  - reflexivity.
  - exists saved. repeat split; try assumption. apply Hnew. reflexivity.
Defined.

Lemma highlight_is_a_suggestion_witness :
  let st := MapSearchControl.run String.length MapSearchControl.initialState
              (Sample.typed_and_fetched ++ [MapSearchControl.MouseEnter 1]) in
  MapSearchControl.highlight_ok st /\
  (MapSearchControl.highlightedIndex st = (-1)%Z ->
   snd (MapSearchControl.handleSubmit st)
   = MapSearchControl.onSearch (MapSearchControl.query st)) /\
  (MapSearchControl.highlightedIndex st <> (-1)%Z ->
   exists place : Place.t,
     MapSearchControl.suggestions st !! Z.to_nat (MapSearchControl.highlightedIndex st)
     = Some place /\
     MapSearchControl.handleSubmit st = MapSearchControl.handleSuggestionClick place st).
Proof.
  apply (highlight_is_a_suggestion String.length
           (Sample.typed_and_fetched ++ [MapSearchControl.MouseEnter 1])).
  simpl. repeat split. vm_compute. lia.
Defined.

Lemma arrow_keys_cycle_witness :
  let st := MapSearchControl.run String.length MapSearchControl.initialState
              Sample.typed_and_fetched in
  MapSearchControl.highlightedIndex (MapSearchControl.handleKeyDown MapSearchControl.ArrowDown st)
  = 0%Z /\
  MapSearchControl.highlightedIndex (MapSearchControl.handleKeyDown MapSearchControl.ArrowUp st)
  = 1%Z.
Proof.
  intros st.
  apply (proj2 (arrow_keys_cycle st eq_refl ltac:(discriminate))). reflexivity.
Defined.

Lemma pending_fetch_is_for_the_query_witness :
  "pe" = MapSearchControl.query
           (MapSearchControl.run String.length MapSearchControl.initialState
              [MapSearchControl.QueryChange "p"; MapSearchControl.QueryChange "pe"]) /\
  2 <= String.length "pe".
Proof.
  apply (pending_fetch_is_for_the_query String.length
           [MapSearchControl.QueryChange "p"; MapSearchControl.QueryChange "pe"] "pe").
  reflexivity.
Defined.

Lemma option_edits_keep_answer_among_options_witness :
  exists (st' : QuizBuilder.State) (q' : Question.t),
    QuizBuilder.handleOptionChange 0 0 "The Nabataeans" Sample.quiz = Some st' /\
    QuizBuilder.read (QuizBuilder.heap st') 0 = Some q' /\
    Question.options q' = Some ["The Nabataeans"; "Romans"] /\
    QuizBuilder.answer_among_options q'.
Proof.
  apply (proj1 (proj2 (option_edits_keep_answer_among_options 0 0 Sample.q2
                         ["Nabataeans"; "Romans"] Sample.quiz
                         eq_refl eq_refl eq_refl (or_intror (or_introl eq_refl))))
           0 "The Nabataeans").
  simpl. lia.
Defined.

Lemma option_edit_reaches_the_record_under_edit_witness :
  exists (st1 st2 : QuizBuilder.State) (r' : nat),
    QuizBuilder.handleQuestionChange 0 (QuizBuilder.field_text "Who carved it?") Sample.quiz
    = Some st1 /\
    QuizBuilder.questions st1 !! 0 = Some r' /\
    r' <> 0 /\
    QuizBuilder.read (QuizBuilder.heap st1) 0 = Some Sample.q2 /\
    QuizBuilder.handleOptionChange 0 0 "Romans" st1 = Some st2 /\
    QuizBuilder.read (QuizBuilder.heap st2) 0
    = Some {| Question.id := "q2";
              Question.text := "Who built it?";
              Question.type := multiple_choice;
              Question.options := Some ["Romans"; "Romans"];
              Question.answer := "Nabataeans" |}.
Proof.
  apply (proj2 (option_edit_reaches_the_record_under_edit 0 0 0 0 _
                  ["Nabataeans"; "Romans"] "Romans" Sample.quiz
                  eq_refl eq_refl eq_refl eq_refl ltac:(simpl; lia))
           "Who carved it?").
Defined.

Lemma in_sync_holds_until_an_option_edit_witness :
  let st := @updateStoredLocations RefJSON_builtin [Sample.petra]
              (Sample.state [Sample.petra]) in
  exists (opened : AppState) (form' : QuizBuilder.State) (st' : AppState),
    Memory.handleEdit Sample.petra_heap Sample.petra_object st = Some opened /\
    QuizBuilder.handleOptionChange 1 0 "The Nabataeans"
      (QuizBuilder.syncQuestions (Some [1; 0])
         {| QuizBuilder.heap := Sample.petra_heap; QuizBuilder.questions := [] |})
    = Some form' /\
    Memory.reread (QuizBuilder.heap form') [Sample.petra_object]
      (Some Sample.petra_object) opened = Some st' /\
    locations st' <> [Sample.petra] /\
    getItem "locations" st'
    = Some (RefJSON.print_value (Locations_to_js [Sample.petra])).
Proof.
  intros st.
  destruct (proj2 (@in_sync_holds_until_an_option_edit RefJSON_builtin st
                     (@in_sync_store_then_set RefJSON_builtin [Sample.petra]
                        (Sample.state [])))
              {| QuizBuilder.heap := Sample.petra_heap; QuizBuilder.questions := [] |}
              [Sample.petra_object] Sample.petra_object [1; 0]
              {| QuizBuilder.id := "q2";
                 QuizBuilder.text := "Who built it?";
                 QuizBuilder.type := multiple_choice;
                 QuizBuilder.options := Some 0;
                 QuizBuilder.answer := "Nabataeans" |}
              ["Nabataeans"; "Romans"] 0 1 0 0 0 "The Nabataeans")
    as (opened & form' & st' & Hopened & Hform & Hreread & Hl & Hstore & _);
    try reflexivity.
  - simpl. lia.
  - discriminate.
  - exists opened, form', st'. repeat split; assumption.
Defined.
